(** * Client-storage adapters: cookies, localStorage, sessionStorage

    A shallow embedding of the three persistence services of the front
    end: [CookieService] and [SessionStorageService]
    ([app/services/cookie.service.ts]) and [LocalStorageService], with the
    properties of the adapters stated and proved over it.

    The services are thin wrappers over platform objects
    ([document.cookie], [window.localStorage], [window.sessionStorage],
    [JSON], [encodeURIComponent], [Date]).  The platform is modelled
    first, as executable functions; the services are then transcribed
    method by method, and the statements come last.

    The model, in short:
    - strings are sequences of the code units U+0000..U+00FF;
    - a JSON number is an integer (exact for the safe integers of
      JavaScript) or, when written with a fraction or an exponent, its
      text, neither rounded nor normalised;
    - an exception is a [None] result; every [try]/[catch] of the services
      is the match that replaces [None] by the default of the [catch];
      console output is not modelled;
    - the environment [Global] holds [window] and [document], either of
      which may be undefined, and the clock [now] read by [new Date()];
    - a storage area is a finite map without quota; the cookie jar lists
      the cookies visible to the document, without size limit, and of the
      attributes of a cookie string it interprets [expires] only. *)

From Stdlib Require Import ZArith Ascii String List Bool Lia.
From Stdlib Require DecimalFacts DecimalPos DecimalZ.
From stdpp Require Import base option strings gmap.

Local Open Scope Z_scope.

(** ** JavaScript strings

    A JavaScript string is a sequence of UTF-16 code units.  It is modelled
    by [string], whose characters stand for the code units U+0000..U+00FF
    (the Latin-1 range).  Everything below is exact on that range. *)

Module JsString.

Fixpoint forallb (p : ascii → bool) (s : string) : bool :=
  match s with
  | EmptyString => true
  | String a r => p a && forallb p r
  end.

Definition mem (c : ascii) (s : string) : bool :=
  negb (forallb (λ a, negb (Ascii.eqb a c)) s).

(** [s.split(c)] for a one-character separator: never the empty list,
    [''.split(c)] is [['']]. *)
Fixpoint split (c : ascii) (s : string) : list string :=
  match s with
  | EmptyString => [EmptyString]
  | String a r =>
      if Ascii.eqb a c then EmptyString :: split c r
      else match split c r with
           | x :: xs => String a x :: xs
           | [] => [String a EmptyString]
           end
  end.

(** WhiteSpace and LineTerminator code units below U+0100: TAB, LF, VT,
    FF, CR, SP and NBSP. *)
Definition is_space (a : ascii) : bool :=
  let n := N_of_ascii a in
  ((9 <=? n) && (n <=? 13) || (n =? 32) || (n =? 160))%N.

Fixpoint dropWhile (p : ascii → bool) (s : string) : string :=
  match s with
  | EmptyString => EmptyString
  | String a r => if p a then dropWhile p r else s
  end.

Fixpoint dropWhileEnd (p : ascii → bool) (s : string) : string :=
  match s with
  | EmptyString => EmptyString
  | String a r =>
      match dropWhileEnd p r with
      | EmptyString => if p a then EmptyString else String a EmptyString
      | r' => String a r'
      end
  end.

Definition strip (p : ascii → bool) (s : string) : string :=
  dropWhileEnd p (dropWhile p s).

(** [s.trim()] *)
Definition trim (s : string) : string := strip is_space s.

(** The part before and the part after the first [c]; [None] when [s]
    has no [c]. *)
Fixpoint cut (c : ascii) (s : string) : option (string * string) :=
  match s with
  | EmptyString => None
  | String a r =>
      if Ascii.eqb a c then Some (EmptyString, r)
      else match cut c r with
           | Some (x, y) => Some (String a x, y)
           | None => None
           end
  end.

(** ASCII lower-casing, for case-insensitive comparison. *)
Definition lower (a : ascii) : ascii :=
  let n := N_of_ascii a in
  if ((65 <=? n) && (n <=? 90))%N then ascii_of_N (n + 32) else a.

Fixpoint toLowerCase (s : string) : string :=
  match s with
  | EmptyString => EmptyString
  | String a r => String (lower a) (toLowerCase r)
  end.

(** ASCII upper-casing of one code unit. *)
Definition upper (a : ascii) : ascii :=
  let n := N_of_ascii a in
  if ((97 <=? n) && (n <=? 122))%N then ascii_of_N (n - 32) else a.

(** [s.indexOf(p) === 0] *)
Fixpoint startsWith (p s : string) : bool :=
  match p, s with
  | EmptyString, _ => true
  | String a p', String b s' => Ascii.eqb a b && startsWith p' s'
  | String _ _, EmptyString => false
  end.

(** [s.substring(0, n)] *)
Fixpoint take (n : nat) (s : string) : string :=
  match n, s with
  | S n', String a r => String a (take n' r)
  | _, _ => EmptyString
  end.

(** [s.substring(n)] *)
Fixpoint substring (n : nat) (s : string) : string :=
  match n, s with
  | O, _ => s
  | S n', String _ r => substring n' r
  | S _, EmptyString => EmptyString
  end.

(** The double quote character. *)
Definition dquote : ascii := ascii_of_N 34.

(** A text written with ['] for the double quote. *)
Fixpoint ticks (s : string) : string :=
  match s with
  | EmptyString => EmptyString
  | String a r => String (if Ascii.eqb a "'" then dquote else a) (ticks r)
  end.

(** Truthiness of a string: non-empty. *)
Definition truthy (s : string) : bool :=
  match s with EmptyString => false | String _ _ => true end.

(** [l.join(sep)] *)
Fixpoint join (sep : string) (l : list string) : string :=
  match l with
  | [] => EmptyString
  | [x] => x
  | x :: xs => x +:+ sep +:+ join sep xs
  end.

End JsString.

(** ** [encodeURIComponent] and [decodeURIComponent] *)

Module Uri.

Definition hex_digit (n : N) : ascii :=
  ascii_of_N (if (n <? 10)%N then 48 + n else 55 + n)%N.

Definition hex_value (a : ascii) : option N :=
  let n := N_of_ascii a in
  if ((48 <=? n) && (n <=? 57))%N then Some (n - 48)%N
  else if ((65 <=? n) && (n <=? 70))%N then Some (n - 55)%N
  else if ((97 <=? n) && (n <=? 102))%N then Some (n - 87)%N
  else None.

(** [%XX], upper-case hexadecimal. *)
Definition percent (b : N) (rest : string) : string :=
  String "%" (String (hex_digit (b / 16)) (String (hex_digit (b mod 16)) rest)).

(** uriUnreserved: letters, digits and [- _ . ! ~ * ' ( )]. *)
Definition unreserved (a : ascii) : bool :=
  let n := N_of_ascii a in
  ((65 <=? n) && (n <=? 90) || (97 <=? n) && (n <=? 122)
   || (48 <=? n) && (n <=? 57)
   || (n =? 45) || (n =? 95) || (n =? 46) || (n =? 33) || (n =? 126)
   || (n =? 42) || (n =? 39) || (n =? 40) || (n =? 41))%N.

(** One code unit: kept when unreserved, otherwise the bytes of its
    UTF-8 form are percent-escaped (one byte below U+0080, two bytes
    from U+0080 to U+00FF). *)
Definition encode_unit (a : ascii) (rest : string) : string :=
  let n := N_of_ascii a in
  if unreserved a then String a rest
  else if (n <? 128)%N then percent n rest
  else percent (192 + n / 64) (percent (128 + n mod 64) rest).

Fixpoint encodeURIComponent (s : string) : string :=
  match s with
  | EmptyString => EmptyString
  | String a r => encode_unit a (encodeURIComponent r)
  end.

Definition hex_pair (h l : ascii) : option N :=
  match hex_value h, hex_value l with
  | Some x, Some y => Some (16 * x + y)%N
  | _, _ => None
  end.

(** [None] stands for the URIError thrown on a malformed escape.  A
    well-formed escape of a code point above U+00FF has no image in the
    string model and is mapped to [None] too; no statement below relies
    on that case. *)
Fixpoint decodeURIComponent (s : string) : option string :=
  match s with
  | EmptyString => Some EmptyString
  | String c r =>
      if Ascii.eqb c "%" then
        match r with
        | String h (String l r1) =>
            match hex_pair h l with
            | None => None
            | Some b =>
                if (b <? 128)%N then
                  String (ascii_of_N b) <$> decodeURIComponent r1
                else if ((b =? 194) || (b =? 195))%N then
                  match r1 with
                  | String p (String h' (String l' r2)) =>
                      if Ascii.eqb p "%" then
                        match hex_pair h' l' with
                        | Some b' =>
                            if ((128 <=? b') && (b' <? 192))%N then
                              String (ascii_of_N ((b - 192) * 64 + (b' - 128)))
                                <$> decodeURIComponent r2
                            else None
                        | None => None
                        end
                      else None
                  | _ => None
                  end
                else None
            end
        | _ => None
        end
      else String c <$> decodeURIComponent r
  end.

End Uri.

Export Uri.

(** ** JSON values, [JSON.stringify] and [JSON.parse]

    The values the services store and return.  A number is an integer
    ([JNum], printed and read in decimal) or, when its text has a fraction
    or an exponent, that text ([JDec]: the model neither rounds such a
    number nor identifies two ways of writing it).  Objects list their
    own properties in the order they were created.  [JNull] is also the
    [null] the services return for a missing entry. *)

Module Json.
Import JsString (dquote).

Unset Elimination Schemes.
Inductive json : Type :=
| JNull
| JBool (b : bool)
| JNum (n : Z)
| JDec (literal : string)
| JStr (s : string)
| JArr (elements : list json)
| JObj (members : list (string * json)).
Set Elimination Schemes.

Fixpoint string_of_uint (d : Decimal.uint) : string :=
  match d with
  | Decimal.Nil => EmptyString
  | Decimal.D0 d => String "0" (string_of_uint d)
  | Decimal.D1 d => String "1" (string_of_uint d)
  | Decimal.D2 d => String "2" (string_of_uint d)
  | Decimal.D3 d => String "3" (string_of_uint d)
  | Decimal.D4 d => String "4" (string_of_uint d)
  | Decimal.D5 d => String "5" (string_of_uint d)
  | Decimal.D6 d => String "6" (string_of_uint d)
  | Decimal.D7 d => String "7" (string_of_uint d)
  | Decimal.D8 d => String "8" (string_of_uint d)
  | Decimal.D9 d => String "9" (string_of_uint d)
  end.

Definition string_of_Z (n : Z) : string :=
  match Z.to_int n with
  | Decimal.Pos d => string_of_uint d
  | Decimal.Neg d => String "-" (string_of_uint d)
  end.

(** QuoteJSONString, one code unit at a time. *)
Definition quote_unit (a : ascii) (rest : string) : string :=
  let n := N_of_ascii a in
  if (n =? 8)%N then String "\" (String "b" rest)
  else if (n =? 9)%N then String "\" (String "t" rest)
  else if (n =? 10)%N then String "\" (String "n" rest)
  else if (n =? 12)%N then String "\" (String "f" rest)
  else if (n =? 13)%N then String "\" (String "r" rest)
  else if (n =? 34)%N then String "\" (String dquote rest)
  else if (n =? 92)%N then String "\" (String "\" rest)
  else if (n <? 32)%N then
    String "\" (String "u" (String "0" (String "0"
      (String (ascii_of_N (if (n / 16 <? 10) then 48 + n / 16 else 87 + n / 16)%N)
        (String (ascii_of_N (if (n mod 16 <? 10) then 48 + n mod 16 else 87 + n mod 16)%N)
           rest)))))
  else String a rest.

Fixpoint quote_body (s : string) : string :=
  match s with
  | EmptyString => String dquote EmptyString
  | String a r => quote_unit a (quote_body r)
  end.

Definition quote (s : string) : string := String dquote (quote_body s).

Fixpoint JSON_stringify (v : json) : string :=
  match v with
  | JNull => "null"
  | JBool true => "true"
  | JBool false => "false"
  | JNum n => string_of_Z n
  | JDec literal => literal
  | JStr s => quote s
  | JArr l => "[" +:+ JsString.join "," (map JSON_stringify l) +:+ "]"
  | JObj l =>
      "{" +:+ JsString.join ","
                (map (λ kv, quote kv.1 +:+ ":" +:+ JSON_stringify kv.2) l)
          +:+ "}"
  end.

(** *** Parsing *)

Definition is_json_ws (a : ascii) : bool :=
  let n := N_of_ascii a in ((n =? 32) || (n =? 9) || (n =? 10) || (n =? 13))%N.

Fixpoint skip_ws (s : string) : string :=
  match s with
  | String a r => if is_json_ws a then skip_ws r else s
  | EmptyString => EmptyString
  end.

Definition digit_value (a : ascii) : option N :=
  let n := N_of_ascii a in
  if ((48 <=? n) && (n <=? 57))%N then Some (n - 48)%N else None.

Definition push_digit (k : N) (d : Decimal.uint) : Decimal.uint :=
  match k with
  | 0 => Decimal.D0 d | 1 => Decimal.D1 d | 2 => Decimal.D2 d
  | 3 => Decimal.D3 d | 4 => Decimal.D4 d | 5 => Decimal.D5 d
  | 6 => Decimal.D6 d | 7 => Decimal.D7 d | 8 => Decimal.D8 d
  | _ => Decimal.D9 d
  end%N.

(** The longest run of decimal digits at the head of [s]. *)
Fixpoint take_digits (s : string) : Decimal.uint * string :=
  match s with
  | EmptyString => (Decimal.Nil, EmptyString)
  | String a r =>
      match digit_value a with
      | Some k => let '(d, r') := take_digits r in (push_digit k d, r')
      | None => (Decimal.Nil, s)
      end
  end.

(** int: [0], or a non-zero digit followed by digits. *)
Definition parse_int (s : string) : option (Decimal.uint * string) :=
  match s with
  | String a r =>
      match digit_value a with
      | Some 0%N => Some (Decimal.D0 Decimal.Nil, r)
      | Some _ => Some (take_digits s)
      | None => None
      end
  | EmptyString => None
  end.

(** One or more digits; what follows them. *)
Definition parse_digits (s : string) : option string :=
  match take_digits s with
  | (Decimal.Nil, _) => None
  | (_, r) => Some r
  end.

(** frac: nothing, or [.] and digits. *)
Definition parse_frac (s : string) : option string :=
  match s with
  | String a r => if Ascii.eqb a "." then parse_digits r else Some s
  | EmptyString => Some s
  end.

(** exp: nothing, or [e] or [E], an optional sign and digits. *)
Definition parse_exp (s : string) : option string :=
  match s with
  | String a r =>
      if Ascii.eqb a "e" || Ascii.eqb a "E" then
        match r with
        | String b r' =>
            if Ascii.eqb b "+" || Ascii.eqb b "-" then parse_digits r'
            else parse_digits r
        | EmptyString => None
        end
      else Some s
  | EmptyString => Some s
  end.

(** The sign of a number text, and the text after the sign. *)
Definition number_sign (s : string) : bool * string :=
  match s with
  | String a r => if Ascii.eqb a "-" then (true, r) else (false, s)
  | EmptyString => (false, s)
  end.

(** frac and exp after the integer part [d] of the number text [s] ([r]
    is what follows the integer part).  Without fraction and exponent
    the number is the integer read; otherwise it is the text read. *)
Definition number_tail (negative : bool) (s : string) (d : Decimal.uint) (r : string)
  : option (json * string) :=
  r1 ← parse_frac r;
  r2 ← parse_exp r1;
  if (String.length r2 =? String.length r)%nat then
    Some (JNum (Z.of_int (if negative then Decimal.Neg d else Decimal.Pos d)), r)
  else
    Some (JDec (JsString.take (String.length s - String.length r2) s), r2).

(** number: an optional [-], int, frac, exp. *)
Definition parse_number (s : string) : option (json * string) :=
  let '(negative, s1) := number_sign s in
  '(d, r) ← parse_int s1;
  number_tail negative s d r.

Definition hex4 (a b c d : ascii) : option N :=
  match Uri.hex_value a, Uri.hex_value b, Uri.hex_value c, Uri.hex_value d with
  | Some x, Some y, Some z, Some w => Some (((x * 16 + y) * 16 + z) * 16 + w)%N
  | _, _, _, _ => None
  end.

(** The characters of a string literal after its opening quote.  An
    escape [\uXXXX] above U+00FF has no image in the string model and is
    rejected. *)
Fixpoint parse_string_body (s : string) : option (string * string) :=
  match s with
  | EmptyString => None
  | String c r =>
      if Ascii.eqb c dquote then Some (EmptyString, r)
      else if Ascii.eqb c "\" then
        match r with
        | String e r1 =>
            let simple (x : N) :=
              '(t, r') ← parse_string_body r1; Some (String (ascii_of_N x) t, r') in
            if Ascii.eqb e dquote then simple 34%N
            else if Ascii.eqb e "\" then simple 92%N
            else if Ascii.eqb e "/" then simple 47%N
            else if Ascii.eqb e "b" then simple 8%N
            else if Ascii.eqb e "f" then simple 12%N
            else if Ascii.eqb e "n" then simple 10%N
            else if Ascii.eqb e "r" then simple 13%N
            else if Ascii.eqb e "t" then simple 9%N
            else if Ascii.eqb e "u" then
              match r1 with
              | String h1 (String h2 (String h3 (String h4 r2))) =>
                  match hex4 h1 h2 h3 h4 with
                  | Some x =>
                      if (x <? 256)%N then
                        '(t, r') ← parse_string_body r2;
                        Some (String (ascii_of_N x) t, r')
                      else None
                  | None => None
                  end
              | _ => None
              end
            else None
        | EmptyString => None
        end
      else if (N_of_ascii c <? 32)%N then None
      else '(t, r') ← parse_string_body r; Some (String c t, r')
  end.

(** CreateDataProperty on the object under construction: a repeated key
    keeps its place and takes the later value. *)
Fixpoint define_member (k : string) (v : json) (l : list (string * json))
  : list (string * json) :=
  match l with
  | [] => [(k, v)]
  | (k', v') :: l' =>
      if String.eqb k k' then (k, v) :: l' else (k', v') :: define_member k v l'
  end.

Definition expect (lit : string) (v : json) (s : string) : option (json * string) :=
  if JsString.startsWith lit s
  then Some (v, JsString.substring (String.length lit) s) else None.

Fixpoint parse_value (fuel : nat) (s : string) : option (json * string) :=
  match fuel with
  | O => None
  | S fuel =>
      match skip_ws s with
      | EmptyString => None
      | String c r as s' =>
          if Ascii.eqb c "n" then expect "null" JNull s'
          else if Ascii.eqb c "t" then expect "true" (JBool true) s'
          else if Ascii.eqb c "f" then expect "false" (JBool false) s'
          else if Ascii.eqb c dquote then
            '(t, r') ← parse_string_body r; Some (JStr t, r')
          else if Ascii.eqb c "[" then
            match skip_ws r with
            | String c' r' =>
                if Ascii.eqb c' "]" then Some (JArr [], r')
                else '(l, r'') ← parse_elements fuel r; Some (JArr l, r'')
            | EmptyString => None
            end
          else if Ascii.eqb c "{" then
            match skip_ws r with
            | String c' r' =>
                if Ascii.eqb c' "}" then Some (JObj [], r')
                else '(l, r'') ← parse_members fuel [] r; Some (JObj l, r'')
            | EmptyString => None
            end
          else parse_number s'
      end
  end
with parse_elements (fuel : nat) (s : string) : option (list json * string) :=
  match fuel with
  | O => None
  | S fuel =>
      '(v, r) ← parse_value fuel s;
      match skip_ws r with
      | String c r' =>
          if Ascii.eqb c "," then
            '(l, r'') ← parse_elements fuel r'; Some (v :: l, r'')
          else if Ascii.eqb c "]" then Some ([v], r')
          else None
      | EmptyString => None
      end
  end
with parse_members (fuel : nat) (acc : list (string * json)) (s : string)
  : option (list (string * json) * string) :=
  match fuel with
  | O => None
  | S fuel =>
      match skip_ws s with
      | String q r0 =>
          if Ascii.eqb q dquote then
            '(k, r1) ← parse_string_body r0;
            match skip_ws r1 with
            | String c r2 =>
                if Ascii.eqb c ":" then
                  '(v, r3) ← parse_value fuel r2;
                  let acc' := define_member k v acc in
                  match skip_ws r3 with
                  | String c' r4 =>
                      if Ascii.eqb c' "," then parse_members fuel acc' r4
                      else if Ascii.eqb c' "}" then Some (acc', r4)
                      else None
                  | EmptyString => None
                  end
                else None
            | EmptyString => None
            end
          else None
      | EmptyString => None
      end
  end.

(** [None] stands for the SyntaxError thrown by [JSON.parse]. *)
Definition JSON_parse (s : string) : option json :=
  '(v, r) ← parse_value (2 * String.length s + 2) s;
  match skip_ws r with
  | EmptyString => Some v
  | String _ _ => None
  end.

(** Structural induction on JSON values, through the lists of elements
    and members. *)
Section Induction.
Context (P : json → Prop).
Hypothesis Hnull : P JNull.
Hypothesis Hbool : ∀ b, P (JBool b).
Hypothesis Hnum : ∀ n, P (JNum n).
Hypothesis Hdec : ∀ literal, P (JDec literal).
Hypothesis Hstr : ∀ s, P (JStr s).
Hypothesis Harr : ∀ l, Forall P l → P (JArr l).
Hypothesis Hobj : ∀ l, Forall (λ kv, P kv.2) l → P (JObj l).

Fixpoint json_ind (v : json) : P v :=
  match v with
  | JNull => Hnull
  | JBool b => Hbool b
  | JNum n => Hnum n
  | JDec literal => Hdec literal
  | JStr s => Hstr s
  | JArr l =>
      Harr l ((fix all (l : list json) : Forall P l :=
                 match l with
                 | [] => List.Forall_nil P
                 | x :: l' => @List.Forall_cons _ P x l' (json_ind x) (all l')
                 end) l)
  | JObj l =>
      Hobj l ((fix all (l : list (string * json)) : Forall (λ kv, P kv.2) l :=
                 match l with
                 | [] => List.Forall_nil _
                 | kv :: l' => @List.Forall_cons _ (λ kv, P kv.2) kv l' (json_ind kv.2) (all l')
                 end) l)
  end.
End Induction.

(** The plain values: the numbers are integers and no object lists a
    key twice. *)
Fixpoint plain (v : json) : bool :=
  match v with
  | JDec _ => false
  | JArr l => List.forallb plain l
  | JObj l =>
      bool_decide (NoDup (map fst l))
      && List.forallb (λ kv, plain kv.2) l
  | _ => true
  end.

(** Fuel that suffices to read a value back: one unit per value and one
    per element or member. *)
Fixpoint weight (v : json) : nat :=
  match v with
  | JArr l => S (fold_right (λ x n, S (weight x + n)) O l)
  | JObj l => S (fold_right (λ kv n, S (weight kv.2 + n)) O l)
  | _ => 1
  end.

(** What may follow a value inside a JSON text: nothing, or one of
    [,], []] and [}]. *)
Definition delimited (rest : string) : bool :=
  match rest with
  | EmptyString => true
  | String c _ => Ascii.eqb c "," || Ascii.eqb c "]" || Ascii.eqb c "}"
  end.

(** The first character of a printed value. *)
Definition value_start (c : ascii) : bool :=
  Ascii.eqb c "n" || Ascii.eqb c "t" || Ascii.eqb c "f" || Ascii.eqb c dquote
  || Ascii.eqb c "[" || Ascii.eqb c "{" || Ascii.eqb c "-"
  || match digit_value c with Some _ => true | None => false end.

(** The text of one member of an object. *)
Definition member_text (kv : string * json) : string :=
  quote kv.1 +:+ ":" +:+ JSON_stringify kv.2.

Definition elements_weight (l : list json) : nat :=
  fold_right (λ x n, S (weight x + n)) O l.

Definition members_weight (l : list (string * json)) : nat :=
  fold_right (λ kv n, S (weight kv.2 + n)) O l.

(** A value is read back from its text, whatever follows it. *)
Definition reads_back (v : json) : Prop :=
  plain v = true →
  ∀ fuel rest, (weight v <= fuel)%nat → delimited rest = true →
  parse_value fuel (JSON_stringify v +:+ rest) = Some (v, rest).

End Json.

Export Json.

Definition sample_value : json :=
  JObj [("id", JNum 42); ("tags", JArr [JStr (JsString.ticks "a'b"); JNull; JBool true]); ("n", JNum (-7))].

(** ** Dates

    A [Date] holds a time value: milliseconds since the epoch, or NaN
    (here [None]) for an invalid date. *)

Module JsDate.

Definition Date : Type := option Z.

Definition msPerDay : Z := 24 * 60 * 60 * 1000.

(** TimeClip: a time value beyond 8.64e15 ms is not a date. *)
Definition TimeClip (t : Z) : Date :=
  if Z.abs t <=? 8640000000000000 then Some t else None.

(** Days since the epoch to (year, month, day), proleptic Gregorian. *)
Definition civil_from_days (z : Z) : Z * Z * Z :=
  let z := z + 719468 in
  let era := z / 146097 in
  let doe := z - era * 146097 in
  let yoe := (doe - doe / 1460 + doe / 36524 - doe / 146096) / 365 in
  let doy := doe - (365 * yoe + yoe / 4 - yoe / 100) in
  let mp := (5 * doy + 2) / 153 in
  let d := doy - (153 * mp + 2) / 5 + 1 in
  let m := if mp <? 10 then mp + 3 else mp - 9 in
  let y := yoe + era * 400 in
  (if m <=? 2 then y + 1 else y, m, d).

Definition days_from_civil (y m d : Z) : Z :=
  let y := if m <=? 2 then y - 1 else y in
  let era := y / 400 in
  let yoe := y - era * 400 in
  let doy := (153 * (if 2 <? m then m - 3 else m + 9) + 2) / 5 + d - 1 in
  let doe := yoe * 365 + yoe / 4 - yoe / 100 + doy in
  era * 146097 + doe - 719468.

Definition day_names : list string :=
  ["Sun"; "Mon"; "Tue"; "Wed"; "Thu"; "Fri"; "Sat"].

Definition month_names : list string :=
  ["Jan"; "Feb"; "Mar"; "Apr"; "May"; "Jun";
   "Jul"; "Aug"; "Sep"; "Oct"; "Nov"; "Dec"].

Definition pad (width : nat) (n : Z) : string :=
  let s := Json.string_of_Z n in
  String.concat "" (repeat "0" (width - String.length s)) +:+ s.

(** [d.toUTCString()]: [Www, DD Mon YYYY HH:mm:ss GMT]. *)
Definition toUTCString (d : Date) : string :=
  match d with
  | None => "Invalid Date"
  | Some t =>
      let day := t / msPerDay in
      let ms := t mod msPerDay in
      let '(y, m, dd) := civil_from_days day in
      nth (Z.to_nat ((day + 4) mod 7)) day_names "" +:+ ", "
      +:+ pad 2 dd +:+ " "
      +:+ nth (Z.to_nat (m - 1)) month_names "" +:+ " "
      +:+ (if y <? 0 then "-" else "") +:+ pad 4 (Z.abs y) +:+ " "
      +:+ pad 2 (ms / 3600000) +:+ ":"
      +:+ pad 2 (ms / 60000 mod 60) +:+ ":"
      +:+ pad 2 (ms / 1000 mod 60) +:+ " GMT"
  end.

End JsDate.

Export JsDate.

(** ** The cookie jar behind [document.cookie]

    The jar holds the cookies visible to the document as (name, value)
    pairs in the order they are listed.  Assigning to [document.cookie]
    runs the user agent's cookie parser on the assigned string; of the
    attributes only [expires] is interpreted (the jar is not partitioned by
    path or domain and has no size limit). *)

Module CookieJar.

Definition jar : Type := list (string * string).

(** WSP: space and horizontal tab. *)
Definition is_wsp (a : ascii) : bool :=
  let n := N_of_ascii a in ((n =? 32) || (n =? 9))%N.

(** *** Cookie dates (RFC 6265, section 5.1.1) *)

Definition is_delimiter (a : ascii) : bool :=
  let n := N_of_ascii a in
  ((n =? 9) || (32 <=? n) && (n <=? 47) || (59 <=? n) && (n <=? 64)
   || (91 <=? n) && (n <=? 96) || (123 <=? n) && (n <=? 126))%N.

(** The token being read at the head of [s], and the tokens after it. *)
Fixpoint scan (s : string) : string * list string :=
  match s with
  | EmptyString => (EmptyString, [])
  | String a r =>
      let '(t, ts) := scan r in
      if is_delimiter a
      then (EmptyString, if JsString.truthy t then t :: ts else ts)
      else (String a t, ts)
  end.

Definition date_tokens (s : string) : list string :=
  let '(t, ts) := scan s in if JsString.truthy t then t :: ts else ts.

Fixpoint digits (s : string) : list Z * string :=
  match s with
  | EmptyString => ([], EmptyString)
  | String a r =>
      match Json.digit_value a with
      | Some k => let '(ds, r') := digits r in (Z.of_N k :: ds, r')
      | None => ([], s)
      end
  end.

(** A run of [lo] to [hi] digits at the head of [s], not followed by a
    further digit. *)
Definition leading_number (lo hi : nat) (s : string) : option (Z * string) :=
  let '(ds, r) := digits s in
  if ((lo <=? length ds) && (length ds <=? hi))%nat
  then Some (fold_left (λ acc d, acc * 10 + d) ds 0, r)
  else None.

Definition token_time (t : string) : option (Z * Z * Z) :=
  '(h, r) ← leading_number 1 2 t;
  match r with
  | String c r1 =>
      if Ascii.eqb c ":" then
        '(m, r2) ← leading_number 1 2 r1;
        match r2 with
        | String c' r3 =>
            if Ascii.eqb c' ":" then
              '(s, _) ← leading_number 1 2 r3; Some (h, m, s)
            else None
        | EmptyString => None
        end
      else None
  | EmptyString => None
  end.

Fixpoint month_index (names : list string) (i : Z) (t : string) : option Z :=
  match names with
  | [] => None
  | n :: names' =>
      if JsString.startsWith (JsString.toLowerCase n) (JsString.toLowerCase t)
      then Some i else month_index names' (i + 1) t
  end.

Definition token_month (t : string) : option Z :=
  month_index JsDate.month_names 1 t.

Record date_fields : Type := DateFields {
  f_time : option (Z * Z * Z);
  f_day : option Z;
  f_month : option Z;
  f_year : option Z
}.

(** One date-token: the first production among time, day-of-month, month
    and year that is still missing and that the token matches. *)
Definition date_step (f : date_fields) (tok : string) : date_fields :=
  match f_time f, token_time tok with
  | None, Some t => DateFields (Some t) (f_day f) (f_month f) (f_year f)
  | _, _ =>
  match f_day f, leading_number 1 2 tok with
  | None, Some (d, _) => DateFields (f_time f) (Some d) (f_month f) (f_year f)
  | _, _ =>
  match f_month f, token_month tok with
  | None, Some m => DateFields (f_time f) (f_day f) (Some m) (f_year f)
  | _, _ =>
  match f_year f, leading_number 2 4 tok with
  | None, Some (y, _) => DateFields (f_time f) (f_day f) (f_month f) (Some y)
  | _, _ => f
  end end end end.

(** The time value of a cookie date, [None] when the date fails to
    parse. *)
Definition parse_cookie_date (s : string) : option Z :=
  let f := fold_left date_step (date_tokens s) (DateFields None None None None) in
  match f_time f, f_day f, f_month f, f_year f with
  | Some (h, mi, sec), Some d, Some m, Some y =>
      let y := if (70 <=? y) && (y <=? 99) then y + 1900
               else if (0 <=? y) && (y <=? 69) then y + 2000 else y in
      if (1 <=? d) && (d <=? 31) && (1601 <=? y)
         && (h <=? 23) && (mi <=? 59) && (sec <=? 59)
      then
        let days := JsDate.days_from_civil y m d in
        match JsDate.civil_from_days days with
        | (y', m', d') =>
            if (y' =? y) && (m' =? m) && (d' =? d)
            then Some (days * JsDate.msPerDay + ((h * 60 + mi) * 60 + sec) * 1000)
            else None
        end
      else None
  | _, _, _, _ => None
  end.

(** *** Storing *)

(** The name and value of a name-value-pair: split at the first [=]
    (a pair without [=] has the empty name), each stripped of WSP. *)
Definition name_value (nv : string) : string * string :=
  match JsString.cut "=" nv with
  | Some (n, v) => (JsString.strip is_wsp n, JsString.strip is_wsp v)
  | None => (EmptyString, JsString.strip is_wsp nv)
  end.

(** The expiry time the attributes give, if any; a later [expires]
    attribute overrides an earlier one, an unparsable one is ignored. *)
Fixpoint expiry (attrs : list string) (acc : option Z) : option Z :=
  match attrs with
  | [] => acc
  | a :: attrs' =>
      let '(an, av) := match JsString.cut "=" a with
                       | Some (n, v) => (n, v)
                       | None => (a, EmptyString)
                       end in
      if String.eqb (JsString.toLowerCase (JsString.strip is_wsp an)) "expires"
      then match parse_cookie_date (JsString.strip is_wsp av) with
           | Some t => expiry attrs' (Some t)
           | None => expiry attrs' acc
           end
      else expiry attrs' acc
  end.

(** A cookie of the same name is replaced where it stands; a new one
    goes last. *)
Fixpoint store (n v : string) (j : jar) : jar :=
  match j with
  | [] => [(n, v)]
  | (n', v') :: j' =>
      if String.eqb n n' then (n, v) :: j' else (n', v') :: store n v j'
  end.

Definition evict (n : string) (j : jar) : jar :=
  List.filter (λ c, negb (String.eqb c.1 n)) j.

(** [document.cookie = str] at time [now]. *)
Definition assign (now : Z) (str : string) (j : jar) : jar :=
  match JsString.split ";" str with
  | [] => j
  | nv :: attrs =>
      let '(n, v) := name_value nv in
      if negb (JsString.truthy n) && negb (JsString.truthy v) then j
      else match expiry attrs None with
           | Some t => if t <=? now then evict n j else store n v j
           | None => store n v j
           end
  end.

Definition render (c : string * string) : string :=
  if JsString.truthy c.1 then c.1 +:+ "=" +:+ c.2 else c.2.

(** Reading [document.cookie]. *)
Definition read (j : jar) : string := JsString.join "; " (map render j).

(** The first cookie of a name. *)
Fixpoint lookup (n : string) (j : jar) : option string :=
  match j with
  | [] => None
  | (n', v) :: j' => if String.eqb n n' then Some v else lookup n j'
  end.

(** A cookie as a user agent lists it: no [;] in it, no [=] in its name
    (nor in the value of a nameless cookie), no white space around it. *)
Definition entry_ok (c : string * string) : bool :=
  negb (JsString.mem ";" c.1) && negb (JsString.mem ";" c.2)
  && negb (JsString.mem "=" c.1)
  && (JsString.truthy c.1 || negb (JsString.mem "=" c.2))
  && String.eqb (JsString.trim (render c)) (render c).

Definition well_formed (j : jar) : bool := List.forallb entry_ok j.

End CookieJar.

(** ** The global environment

    [window] and [document] may be undefined (no browser context), and so
    may each storage area of a window.  A storage area maps keys to the
    strings stored under them. *)

Record Window : Type := MkWindow {
  localStorage : option (gmap string string);
  sessionStorage : option (gmap string string)
}.

Record Document : Type := MkDocument {
  cookie : CookieJar.jar
}.

Record Global : Type := MkGlobal {
  window : option Window;
  document : option Document;
  now : Z
}.

(** ** CookieService *)

Module CookieService.

Inductive SameSite : Type := strict | lax | none.

Definition sameSite_text (s : SameSite) : string :=
  match s with strict => "strict" | lax => "lax" | none => "none" end.

(** [expires?: number | Date]: a (whole) number of days, or a Date
    object. *)
Inductive Expires : Type :=
| Days (n : Z)
| At (d : Date).

Record CookieOptions : Type := MkOptions {
  expires : option Expires;
  path : option string;
  domain : option string;
  secure : option bool;
  sameSite : option SameSite;
  httpOnly : option bool
}.

(** [options = {}] *)
Definition no_options : CookieOptions :=
  MkOptions None None None None None None.

(** [typeof window !== "undefined" && typeof document !== "undefined"] *)
Definition isBrowser (g : Global) : bool :=
  match window g, document g with
  | Some _, Some _ => true
  | _, _ => false
  end.

(** [typeof value === "string" ? value : JSON.stringify(value)] *)
Definition stringValue (value : json) : string :=
  match value with
  | JStr s => s
  | _ => JSON_stringify value
  end.

(** The [if (options.expires)] block: nothing for a missing or falsy
    [expires] (the number 0 is falsy, a Date object never is), otherwise
    the date the directive is printed from. *)
Definition expiresDate (g : Global) (options : CookieOptions) : option Date :=
  match expires options with
  | None => None
  | Some (Days n) =>
      if n =? 0 then None
      else Some (TimeClip (now g + n * 24 * 60 * 60 * 1000))
  | Some (At d) => Some d
  end.

(** Truthiness of an optional string / boolean option. *)
Definition given (o : option string) : option string :=
  match o with
  | Some s => if JsString.truthy s then Some s else None
  | None => None
  end.

Definition flag (o : option bool) : bool :=
  match o with Some b => b | None => false end.

(** The [cookieString] composed by [setCookie]. *)
Definition cookieString (g : Global) (name : string) (value : json)
    (options : CookieOptions) : string :=
  let cookieString :=
    encodeURIComponent name +:+ "=" +:+ encodeURIComponent (stringValue value) in
  let cookieString :=
    match expiresDate g options with
    | Some expiresDate => cookieString +:+ "; expires=" +:+ toUTCString expiresDate
    | None => cookieString
    end in
  let cookieString :=
    match given (path options) with
    | Some p => cookieString +:+ "; path=" +:+ p
    | None => cookieString +:+ "; path=/"
    end in
  let cookieString :=
    match given (domain options) with
    | Some d => cookieString +:+ "; domain=" +:+ d
    | None => cookieString
    end in
  let cookieString :=
    if flag (secure options) then cookieString +:+ "; secure" else cookieString in
  let cookieString :=
    match sameSite options with
    | Some s => cookieString +:+ "; samesite=" +:+ sameSite_text s
    | None => cookieString
    end in
  cookieString.

Definition setCookie (name : string) (value : json) (options : CookieOptions)
    (g : Global) : Global :=
  match window g, document g with
  | Some _, Some d =>
      MkGlobal (window g)
        (Some (MkDocument
                 (CookieJar.assign (now g) (cookieString g name value options)
                    (cookie d))))
        (now g)
  | _, _ => g
  end.

(** [try { return JSON.parse(value) } catch { return value }] *)
Definition parseOrRaw (value : string) : json :=
  match JSON_parse value with
  | Some v => v
  | None => JStr value
  end.

(** The [for (let cookie of cookies)] loop of [getCookie]; [JNull] is
    the [null] returned after the loop, and also the [null] of the outer
    [catch] when [decodeURIComponent] throws. *)
Fixpoint scanCookies (nameEQ : string) (cookies : list string) : json :=
  match cookies with
  | [] => JNull
  | cookie :: rest =>
      let cookie := JsString.trim cookie in
      if JsString.startsWith nameEQ cookie then
        match decodeURIComponent (JsString.substring (String.length nameEQ) cookie) with
        | Some value => parseOrRaw value
        | None => JNull
        end
      else scanCookies nameEQ rest
  end.

Definition getCookie (name : string) (g : Global) : json :=
  match window g, document g with
  | Some _, Some d =>
      let nameEQ := encodeURIComponent name +:+ "=" in
      let cookies := JsString.split ";" (CookieJar.read (cookie d)) in
      scanCookies nameEQ cookies
  | _, _ => JNull
  end.

(** [{ ...options, expires: new Date(0) }] *)
Definition removeCookie (name : string) (options : CookieOptions)
    (g : Global) : Global :=
  setCookie name (JStr "")
    (MkOptions (Some (At (Some 0))) (path options) (domain options)
       (secure options) (sameSite options) (httpOnly options))
    g.

Definition is_null (v : json) : bool :=
  match v with JNull => true | _ => false end.

(** [this.getCookie(name) !== null] *)
Definition hasCookie (name : string) (g : Global) : bool :=
  negb (is_null (getCookie name g)).

(** [cookies[k] = v] on a plain object: the key [__proto__] reaches the
    prototype setter, which ignores a string, so no own property is
    made. *)
Definition setProperty (k v : string) (cookies : gmap string string)
  : gmap string string :=
  if String.eqb k "__proto__" then cookies else <[k := v]> cookies.

(** The loop shared (verbatim) by [getAllCookies] and
    [parseCookiesFromHeader]; [None] when [decodeURIComponent] throws. *)
Fixpoint collect (cookieArray : list string) (cookies : gmap string string)
  : option (gmap string string) :=
  match cookieArray with
  | [] => Some cookies
  | cookie :: rest =>
      let cookie := JsString.trim cookie in
      match JsString.split "=" cookie with
      | name :: value :: _ =>
          if JsString.truthy name && JsString.truthy value then
            k ← decodeURIComponent name;
            v ← decodeURIComponent value;
            collect rest (setProperty k v cookies)
          else collect rest cookies
      | _ => collect rest cookies
      end
  end.

Definition getAllCookies (g : Global) : gmap string string :=
  match window g, document g with
  | Some _, Some d =>
      match collect (JsString.split ";" (CookieJar.read (cookie d))) ∅ with
      | Some cookies => cookies
      | None => ∅
      end
  | _, _ => ∅
  end.

(** [cookieHeader: string | null] *)
Definition parseCookiesFromHeader (cookieHeader : option string)
  : gmap string string :=
  match given cookieHeader with
  | None => ∅
  | Some cookieHeader =>
      match collect (JsString.split ";" cookieHeader) ∅ with
      | Some cookies => cookies
      | None => ∅
      end
  end.

(** [s.charAt(0).toUpperCase() + s.slice(1)] *)
Definition capitalize (s : string) : string :=
  match s with
  | EmptyString => EmptyString
  | String a r => String (JsString.upper a) r
  end.

Definition createSetCookieHeader (name : string) (value : json)
    (options : CookieOptions) (g : Global) : string :=
  let cookieString :=
    encodeURIComponent name +:+ "=" +:+ encodeURIComponent (stringValue value) in
  let cookieString :=
    match expiresDate g options with
    | Some expiresDate => cookieString +:+ "; Expires=" +:+ toUTCString expiresDate
    | None => cookieString
    end in
  let cookieString :=
    match given (path options) with
    | Some p => cookieString +:+ "; Path=" +:+ p
    | None => cookieString +:+ "; Path=/"
    end in
  let cookieString :=
    match given (domain options) with
    | Some d => cookieString +:+ "; Domain=" +:+ d
    | None => cookieString
    end in
  let cookieString :=
    if flag (secure options) then cookieString +:+ "; Secure" else cookieString in
  let cookieString :=
    match sameSite options with
    | Some s => cookieString +:+ "; SameSite=" +:+ capitalize (sameSite_text s)
    | None => cookieString
    end in
  let cookieString :=
    if flag (httpOnly options) then cookieString +:+ "; HttpOnly" else cookieString in
  cookieString.

End CookieService.

(** ** LocalStorageService and SessionStorageService

    The two classes have the same text up to the storage object they name
    ([window.localStorage] / [window.sessionStorage]); the methods are
    written once over the choice of area. *)

Inductive Area : Type := LocalArea | SessionArea.

Module StorageService.

Definition area (a : Area) (w : Window) : option (gmap string string) :=
  match a with
  | LocalArea => localStorage w
  | SessionArea => sessionStorage w
  end.

(** The storage object when [isBrowser()] holds:
    [typeof window !== "undefined" && typeof window.<area> !== "undefined"]. *)
Definition storage (a : Area) (g : Global) : option (gmap string string) :=
  match window g with
  | Some w => area a w
  | None => None
  end.

Definition isBrowser (a : Area) (g : Global) : bool :=
  match storage a g with Some _ => true | None => false end.

(** The environment with the storage object's contents replaced. *)
Definition update (a : Area) (s : gmap string string) (g : Global) : Global :=
  match window g with
  | Some w =>
      MkGlobal
        (Some match a with
              | LocalArea => MkWindow (Some s) (sessionStorage w)
              | SessionArea => MkWindow (localStorage w) (Some s)
              end)
        (document g) (now g)
  | None => g
  end.

Definition setItem (a : Area) (key : string) (value : json) (g : Global) : Global :=
  match storage a g with
  | None => g
  | Some s =>
      let serializedValue := JSON_stringify value in
      update a (<[key := serializedValue]> s) g
  end.

Definition getItem (a : Area) (key : string) (g : Global) : json :=
  match storage a g with
  | None => JNull
  | Some s =>
      match s !! key with
      | None => JNull
      | Some item =>
          match JSON_parse item with
          | Some v => v
          | None => JNull
          end
      end
  end.

Definition removeItem (a : Area) (key : string) (g : Global) : Global :=
  match storage a g with
  | None => g
  | Some s => update a (delete key s) g
  end.

Definition clear (a : Area) (g : Global) : Global :=
  match storage a g with
  | None => g
  | Some s => update a ∅ g
  end.

(** [Object.keys(storage)] *)
Definition getAllKeys (a : Area) (g : Global) : list string :=
  match storage a g with
  | None => []
  | Some s => (map_to_list s).*1
  end.

(** [storage.getItem(key) !== null] *)
Definition hasItem (a : Area) (key : string) (g : Global) : bool :=
  match storage a g with
  | None => false
  | Some s => match s !! key with Some _ => true | None => false end
  end.

(** [storage.length] *)
Definition getLength (a : Area) (g : Global) : Z :=
  match storage a g with
  | None => 0
  | Some s => Z.of_nat (size s)
  end.

End StorageService.

Module LocalStorageService.
Definition isBrowser := StorageService.isBrowser LocalArea.
Definition setItem := StorageService.setItem LocalArea.
Definition getItem := StorageService.getItem LocalArea.
Definition removeItem := StorageService.removeItem LocalArea.
Definition clear := StorageService.clear LocalArea.
Definition getAllKeys := StorageService.getAllKeys LocalArea.
Definition hasItem := StorageService.hasItem LocalArea.
Definition getLength := StorageService.getLength LocalArea.
End LocalStorageService.

Module SessionStorageService.
Definition isBrowser := StorageService.isBrowser SessionArea.
Definition setItem := StorageService.setItem SessionArea.
Definition getItem := StorageService.getItem SessionArea.
Definition removeItem := StorageService.removeItem SessionArea.
Definition clear := StorageService.clear SessionArea.
Definition getAllKeys := StorageService.getAllKeys SessionArea.
Definition hasItem := StorageService.hasItem SessionArea.
Definition getLength := StorageService.getLength SessionArea.
End SessionStorageService.

Import CookieService.

(** ** Vocabulary of the statements *)

(** A value is JSON-serializable when [JSON.parse] gives it back from its
    [JSON.stringify] text. *)
Definition serializable (v : json) : Prop :=
  JSON_parse (JSON_stringify v) = Some v.

(** The jar of the document, if there is one, is well formed. *)
Definition cookies_well_formed (g : Global) : bool :=
  match document g with
  | Some d => CookieJar.well_formed (cookie d)
  | None => true
  end.

(** The alphabet of [encodeURIComponent]: unreserved characters and [%]
    (hexadecimal digits are unreserved). *)
Definition uri_char (a : ascii) : bool :=
  unreserved a || Ascii.eqb a "%".

(** The segments [document.cookie.split(";")] yields for a jar. *)
Definition segments (j : CookieJar.jar) : list string :=
  match j with
  | [] => [""]
  | c :: j' => CookieJar.render c :: map (λ c', String " " (CookieJar.render c')) j'
  end.

(** What the scan of [getCookie] returns for the raw value it finds. *)
Definition decoded (raw : option string) : json :=
  match raw with
  | Some raw =>
      match decodeURIComponent raw with
      | Some value => parseOrRaw value
      | None => JNull
      end
  | None => JNull
  end.

(** The directives [setCookie] appends to [name=value], in order, each
    without the ["; "] that precedes it. *)
Definition directives (g : Global) (options : CookieOptions) : list string :=
  match expiresDate g options with
  | Some d => ["expires=" +:+ toUTCString d]
  | None => []
  end
  ++ ["path=" +:+ match given (path options) with Some p => p | None => "/" end]
  ++ match given (domain options) with
     | Some d => ["domain=" +:+ d]
     | None => []
     end
  ++ (if flag (secure options) then ["secure"] else [])
  ++ match sameSite options with
     | Some s => ["samesite=" +:+ sameSite_text s]
     | None => []
     end.

(** The directives [createSetCookieHeader] appends. *)
Definition header_directives (g : Global) (options : CookieOptions) : list string :=
  match expiresDate g options with
  | Some d => ["Expires=" +:+ toUTCString d]
  | None => []
  end
  ++ ["Path=" +:+ match given (path options) with Some p => p | None => "/" end]
  ++ match given (domain options) with
     | Some d => ["Domain=" +:+ d]
     | None => []
     end
  ++ (if flag (secure options) then ["Secure"] else [])
  ++ match sameSite options with
     | Some s => ["SameSite=" +:+ capitalize (sameSite_text s)]
     | None => []
     end
  ++ (if flag (httpOnly options) then ["HttpOnly"] else []).

(** [name=value] *)
Definition name_value_pair (name : string) (value : json) : string :=
  encodeURIComponent name +:+ "=" +:+ encodeURIComponent (stringValue value).

(** The name of a directive: the text before its first [=], stripped and
    lower-cased (directive names are case-insensitive). *)
Definition directive_name (segment : string) : string :=
  JsString.toLowerCase
    (JsString.strip CookieJar.is_wsp
       match JsString.cut "=" segment with
       | Some (n, _) => n
       | None => segment
       end).

(** The cookie string [s] carries the directive named [d]: one of the
    segments after [name=value] has that name. *)
Definition has_directive (d : string) (s : string) : bool :=
  existsb (λ segment, String.eqb (directive_name segment) (JsString.toLowerCase d))
    (tl (JsString.split ";" s)).

(** The (name, value) pairs a list of header segments holds, decoded, in
    the order they occur: what the parse loop assigns, one after the
    other.  [None] when [decodeURIComponent] throws. *)
Fixpoint occurrences (cookieArray : list string) : option (list (string * string)) :=
  match cookieArray with
  | [] => Some []
  | cookie :: rest =>
      match JsString.split "=" (JsString.trim cookie) with
      | name :: value :: _ =>
          if JsString.truthy name && JsString.truthy value then
            k ← decodeURIComponent name;
            v ← decodeURIComponent value;
            ps ← occurrences rest;
            Some ((k, v) :: ps)
          else occurrences rest
      | _ => occurrences rest
      end
  end.

(** The value of the first occurrence of a key. *)
Fixpoint first_occurrence (k : string) (ps : list (string * string)) : option string :=
  match ps with
  | [] => None
  | (k', v) :: ps' => if String.eqb k k' then Some v else first_occurrence k ps'
  end.

(** The value of the last occurrence of a key. *)
Definition last_occurrence (k : string) (ps : list (string * string)) : option string :=
  first_occurrence k (rev ps).

Definition page_with_text : Global :=
  MkGlobal (Some (MkWindow (Some {["k" := "not json"]}) (Some ∅)))
    (Some (MkDocument [("other", "1"); ("k", "not%20json")])) 1793638245000.

Definition page_with_cookies : Global :=
  MkGlobal (Some (MkWindow None None))
    (Some (MkDocument [("e", ""); ("k", "a=b")])) 1793638245000.

Definition page : Global :=
  MkGlobal (Some (MkWindow (Some ∅) (Some ∅))) (Some (MkDocument [])) 1793638245000.

Definition server : Global := MkGlobal None None 1793638245000.


(** ** [clearAllCookies]

    [for (const name in cookies)] visits the own properties of the object
    [getAllCookies] returned: the array indices in ascending order, then
    the other keys in the order they were created (the prototype of a
    plain object has nothing enumerable). *)

Module JsObject.

(** An array index: the canonical decimal text of an integer below
    2^32 - 1. *)
Definition array_index (k : string) : option N :=
  match Json.parse_int k with
  | Some (d, EmptyString) =>
      let n := N.of_uint d in
      if (n <? 4294967295)%N then Some n else None
  | _ => None
  end.

Definition is_index (k : string) : bool :=
  match array_index k with Some _ => true | None => false end.

Fixpoint insert_index (i : N) (k : string) (l : list (N * string))
  : list (N * string) :=
  match l with
  | [] => [(i, k)]
  | (i', k') :: l' =>
      if (i <=? i')%N then (i, k) :: l else (i', k') :: insert_index i k l'
  end.

(** The index keys among [keys], ascending. *)
Definition indices (keys : list string) : list (N * string) :=
  fold_right
    (λ k acc, match array_index k with
              | Some i => insert_index i k acc
              | None => acc
              end)
    [] keys.

(** The order of enumeration of the keys of an object, given in the
    order of their creation. *)
Definition for_in (keys : list string) : list string :=
  map snd (indices keys) ++ List.filter (λ k, negb (is_index k)) keys.

(** The own keys after the assignments [cookies[k] = v] of [ps] to an
    object that has the keys [keys], in the order of their creation
    (see [setProperty] for [__proto__]). *)
Fixpoint created (ps : list (string * string)) (keys : list string) : list string :=
  match ps with
  | [] => keys
  | (k, _) :: ps' =>
      if String.eqb k "__proto__" || existsb (String.eqb k) keys
      then created ps' keys
      else created ps' (keys ++ [k])
  end.

End JsObject.

(** The names the loop of [clearAllCookies] visits: the keys of the
    object [getAllCookies] returns (none when it returned [{}] from its
    [catch]). *)
Definition cookieNames (g : Global) : list string :=
  match window g, document g with
  | Some _, Some d =>
      match occurrences (JsString.split ";" (CookieJar.read (cookie d))) with
      | Some ps => JsObject.for_in (JsObject.created ps [])
      | None => []
      end
  | _, _ => []
  end.

Definition clearAllCookies (g : Global) : Global :=
  if CookieService.isBrowser g
  then fold_left (λ g name, removeCookie name no_options g) (cookieNames g) g
  else g.

(** ** The login form

    [onSubmit] of the login page, as far as the cookies go: when its
    timer fires, [elapsed] milliseconds after the submission, it stores
    [`Bearer ${data.email}`] under the name [TOKEN], a constant imported
    from [~/utils/constant] and taken as a parameter here. *)

Module Login.

Record LoginFormData : Type := MkLoginFormData {
  email : string;
  password : string
}.

Definition token (data : LoginFormData) : string := "Bearer " +:+ email data.

Definition onSubmit (TOKEN : string) (data : LoginFormData) (elapsed : Z)
    (g : Global) : Global :=
  setCookie TOKEN (JStr (token data)) no_options
    (MkGlobal (window g) (document g) (now g + elapsed)).

End Login.

(** ** More vocabulary *)

(** A [%] that is not followed by two hexadecimal digits: an escape
    [decodeURIComponent] throws a URIError for. *)
Definition two_hex (s : string) : bool :=
  match s with
  | String h (String l _) =>
      match hex_pair h l with Some _ => true | None => false end
  | _ => false
  end.

Fixpoint bad_escape (s : string) : bool :=
  match s with
  | EmptyString => false
  | String c r => Ascii.eqb c "%" && negb (two_hex r) || bad_escape r
  end.

(** A text [encodeURIComponent] produces. *)
Definition canonical (s : string) : bool :=
  match decodeURIComponent s with
  | Some t => String.eqb (encodeURIComponent t) s
  | None => false
  end.

Fixpoint distinct (l : list string) : bool :=
  match l with
  | [] => true
  | x :: l' => negb (existsb (String.eqb x) l') && distinct l'
  end.

(** A jar as [setCookie] leaves it when nothing else writes cookies:
    names and values are percent-encoded, no name occurs twice. *)
Definition written (j : CookieJar.jar) : bool :=
  List.forallb (λ c, canonical c.1 && canonical c.2) j && distinct (map fst j).

Definition cookies_written (g : Global) : bool :=
  match document g with
  | Some d => written (cookie d)
  | None => true
  end.

(** What the parse loop of [getAllCookies] keeps of a cookie of the
    jar. *)
Definition listed (c : string * string) : bool :=
  JsString.truthy c.1 && JsString.truthy c.2
  && negb (String.eqb c.1 "__proto__").

(** A listing of cookies without an empty name, without an empty value
    and without the key [__proto__]. *)
Definition proper_listing (cookies : gmap string string) : Prop :=
  cookies !! "" = None ∧ cookies !! "__proto__" = None
  ∧ ∀ k, cookies !! k ≠ Some "".

(** * Properties *)

#[local] Arguments String.append !_ _ : simpl nomatch.

(** ** The platform model on sample inputs *)

Example encode_example :
  encodeURIComponent "a b=c;d" = "a%20b%3Dc%3Bd".
Proof. reflexivity. Qed.

Example decode_example :
  decodeURIComponent "a%20b%3Dc%3Bd%C3%A9" = Some (String (ascii_of_N 97) (" b=c;d" +:+ String (ascii_of_N 233) "")).
Proof. reflexivity. Qed.

Example stringify_example :
  JSON_stringify sample_value
  = JsString.ticks "{'id':42,'tags':['a\'b',null,true],'n':-7}".
Proof. reflexivity. Qed.

Example parse_example :
  JSON_parse (JSON_stringify sample_value) = Some sample_value.
Proof. vm_compute. reflexivity. Qed.

Example parse_ws_example :
  JSON_parse (JsString.ticks " [ 1 , { 'a' : [ ] , 'a' : 2 } ] ")
  = Some (JArr [JNum 1; JObj [("a", JNum 2)]]).
Proof. vm_compute. reflexivity. Qed.

Example parse_bad_examples :
  JSON_parse "" = None ∧ JSON_parse "abc" = None ∧ JSON_parse "01" = None
  ∧ JSON_parse "Bearer abc" = None ∧ JSON_parse "[1,]" = None ∧ JSON_parse "123" = Some (JNum 123)
  ∧ JSON_parse "-0" = Some (JNum 0) ∧ JSON_parse "nul" = None ∧ JSON_parse "a=b" = None.
Proof. vm_compute. repeat split; reflexivity. Qed.

Example parse_number_examples :
  JSON_parse "1.5" = Some (JDec "1.5") ∧ JSON_parse "-2e+10" = Some (JDec "-2e+10")
  ∧ JSON_parse "[0.25E-3,7]" = Some (JArr [JDec "0.25E-3"; JNum 7])
  ∧ JSON_parse "1." = None ∧ JSON_parse ".5" = None ∧ JSON_parse "1e" = None
  ∧ JSON_parse "-" = None ∧ JSON_parse "+1" = None ∧ JSON_parse "0x10" = None.
Proof. vm_compute. repeat split; reflexivity. Qed.

Example toUTCString_epoch :
  toUTCString (Some 0) = "Thu, 01 Jan 1970 00:00:00 GMT".
Proof. vm_compute. reflexivity. Qed.

Example toUTCString_2026 :
  toUTCString (Some 1793638245000) = "Mon, 02 Nov 2026 16:50:45 GMT".
Proof. vm_compute. reflexivity. Qed.

Example toUTCString_before_epoch :
  toUTCString (Some (-1)) = "Wed, 31 Dec 1969 23:59:59 GMT".
Proof. vm_compute. reflexivity. Qed.

Example cookie_date_epoch :
  CookieJar.parse_cookie_date "Thu, 01 Jan 1970 00:00:00 GMT" = Some 0.
Proof. vm_compute. reflexivity. Qed.

Example cookie_date_2026 :
  CookieJar.parse_cookie_date (toUTCString (Some 1793638245999)) = Some 1793638245000.
Proof. vm_compute. reflexivity. Qed.

Example cookie_date_invalid :
  CookieJar.parse_cookie_date (toUTCString None) = None
  ∧ CookieJar.parse_cookie_date "Sat, 31 Feb 2026 00:00:00 GMT" = None.
Proof. vm_compute. split; reflexivity. Qed.

Example jar_example :
  CookieJar.read
    (CookieJar.assign 5 "c=; expires=Thu, 01 Jan 1970 00:00:00 GMT; path=/"
       (CookieJar.assign 5 "a=3; path=/"
          (CookieJar.assign 5 "c=x"
             (CookieJar.assign 5 "b=2; path=/" (CookieJar.assign 5 " a = 1 ; path=/" [])))))
  = "a=3; b=2".
Proof. vm_compute. reflexivity. Qed.

Example scenario_token :
  getCookie "token" (setCookie "token" (JStr "Bearer abc") no_options page) = JStr "Bearer abc".
Proof. vm_compute. reflexivity. Qed.

Example scenario_numeric_string :
  getCookie "k" (setCookie "k" (JStr "123") no_options page) = JNum 123.
Proof. vm_compute. reflexivity. Qed.

Example scenario_header :
  createSetCookieHeader "k" (JStr "v") no_options server = "k=v; Path=/"
  ∧ parseCookiesFromHeader (Some "k=v; Path=/") !! "k" = Some "v"
  ∧ parseCookiesFromHeader (Some "a=1; a=2") !! "a" = Some "2".
Proof. vm_compute. repeat split; reflexivity. Qed.

Example scenario_expiry :
  cookieString page "a" (JStr "b") (MkOptions (Some (Days 7)) None None (Some true) (Some lax) (Some true))
  = "a=b; expires=Mon, 09 Nov 2026 16:50:45 GMT; path=/; secure; samesite=lax"
  ∧ createSetCookieHeader "a" (JStr "b") (MkOptions (Some (Days 0)) (Some "") None None (Some none) (Some true)) page
  = "a=b; Path=/; SameSite=None; HttpOnly".
Proof. vm_compute. split; reflexivity. Qed.

(** ** Strings *)

Module StringFacts.
Import JsString.

Lemma append_empty_r (s : string) : s +:+ "" = s.
Proof. induction s as [|a s IH]; simpl; [done | by rewrite IH]. Qed.

Lemma append_assoc (a b c : string) : (a +:+ b) +:+ c = a +:+ b +:+ c.
Proof. induction a as [|x a IH]; simpl; [done | by rewrite IH]. Qed.

Lemma length_append (a b : string) :
  String.length (a +:+ b) = (String.length a + String.length b)%nat.
Proof. induction a as [|x a IH]; simpl; [done | by rewrite IH]. Qed.

Lemma forallb_append p (a b : string) :
  forallb p (a +:+ b) = forallb p a && forallb p b.
Proof.
  induction a as [|x a IH]; simpl; [done |].
  by rewrite IH, andb_assoc.
Qed.

Lemma forallb_impl (p q : ascii → bool) (s : string) :
  (∀ a, p a = true → q a = true) → forallb p s = true → forallb q s = true.
Proof.
  intros Hpq. induction s as [|a s IH]; simpl; [done |].
  intros [Ha Hs]%andb_true_iff. rewrite (Hpq _ Ha). by apply IH.
Qed.

Lemma mem_cons c a (s : string) : mem c (String a s) = Ascii.eqb a c || mem c s.
Proof. unfold mem. simpl. by rewrite negb_andb, negb_involutive. Qed.

Lemma mem_empty c : mem c "" = false.
Proof. done. Qed.

Lemma mem_append c (a b : string) : mem c (a +:+ b) = mem c a || mem c b.
Proof.
  induction a as [|x a IH]; [done |].
  simpl. rewrite !mem_cons, IH. by rewrite orb_assoc.
Qed.

Lemma forallb_not_mem (p : ascii → bool) c (s : string) :
  p c = false → forallb p s = true → mem c s = false.
Proof.
  intros Hc. induction s as [|a s IH]; [done |].
  simpl. intros [Ha Hs]%andb_true_iff. rewrite mem_cons, (IH Hs), orb_false_r.
  destruct (Ascii.eqb_spec a c) as [->|]; [congruence | done].
Qed.

Lemma split_not_nil c (s : string) : split c s ≠ [].
Proof.
  induction s as [|a s IH]; simpl; [done |].
  destruct (Ascii.eqb a c); [done |]. by destruct (split c s).
Qed.

Lemma split_no_sep c (s : string) : mem c s = false → split c s = [s].
Proof.
  induction s as [|a s IH]; [done |].
  rewrite mem_cons. intros [Ha Hs]%orb_false_iff.
  simpl. by rewrite Ha, (IH Hs).
Qed.

Lemma split_append c (a b : string) :
  mem c a = false → split c (a +:+ String c b) = a :: split c b.
Proof.
  induction a as [|x a IH]; simpl.
  - intros _. by rewrite Ascii.eqb_refl.
  - rewrite mem_cons. intros [Hx Ha]%orb_false_iff.
    by rewrite Hx, (IH Ha).
Qed.

Lemma cut_append c (a b : string) :
  mem c a = false → cut c (a +:+ String c b) = Some (a, b).
Proof.
  induction a as [|x a IH]; simpl.
  - intros _. by rewrite Ascii.eqb_refl.
  - rewrite mem_cons. intros [Hx Ha]%orb_false_iff.
    by rewrite Hx, (IH Ha).
Qed.

Lemma cut_no_sep c (s : string) : mem c s = false → cut c s = None.
Proof.
  induction s as [|a s IH]; [done |].
  rewrite mem_cons. intros [Ha Hs]%orb_false_iff.
  simpl. by rewrite Ha, (IH Hs).
Qed.

Lemma dropWhile_none p (s : string) :
  forallb (λ a, negb (p a)) s = true → dropWhile p s = s.
Proof.
  destruct s as [|a s]; [done |]. simpl.
  intros [Ha _]%andb_true_iff. by destruct (p a).
Qed.

Lemma dropWhileEnd_none p (s : string) :
  forallb (λ a, negb (p a)) s = true → dropWhileEnd p s = s.
Proof.
  induction s as [|a s IH]; [done |]. simpl.
  intros [Ha Hs]%andb_true_iff. rewrite (IH Hs).
  destruct s; [by destruct (p a) | done].
Qed.

Lemma strip_none p (s : string) :
  forallb (λ a, negb (p a)) s = true → strip p s = s.
Proof.
  intros H. unfold strip. rewrite (dropWhile_none _ _ H). by apply dropWhileEnd_none.
Qed.

(** Trimming keeps a first character that is not white space. *)
Lemma dropWhileEnd_head p a (s : string) :
  p a = false → ∃ s', dropWhileEnd p (String a s) = String a s'.
Proof.
  intros Ha. simpl. destruct (dropWhileEnd p s); rewrite ?Ha; eauto.
Qed.

Lemma join_cons sep (x y : string) (l : list string) :
  join sep (x :: y :: l) = x +:+ sep +:+ join sep (y :: l).
Proof. done. Qed.

Lemma sep_assoc (a : string) c (v : string) :
  (a +:+ String c "") +:+ v = a +:+ String c v.
Proof. by rewrite append_assoc. Qed.

Lemma startsWith_append (p s : string) : startsWith p (p +:+ s) = true.
Proof.
  induction p as [|a p IH]; simpl; [done |].
  by rewrite Ascii.eqb_refl, IH.
Qed.

Lemma substring_append (p s : string) : substring (String.length p) (p +:+ s) = s.
Proof. induction p as [|a p IH]; simpl; done. Qed.

(** A prefix ending in a separator pins down the part before the first
    separator. *)
Lemma startsWith_sep c (a b v : string) :
  mem c a = false → mem c b = false →
  startsWith (a +:+ String c "") (b +:+ String c v) = true → a = b.
Proof.
  revert b. induction a as [|x a IH]; intros [|y b]; simpl; try done.
  - rewrite mem_cons. intros _ [Hy _]%orb_false_iff.
    rewrite Ascii.eqb_sym, Hy. done.
  - rewrite mem_cons. intros [Hx _]%orb_false_iff _. rewrite Hx. done.
  - rewrite !mem_cons. intros [_ Ha]%orb_false_iff [_ Hb]%orb_false_iff.
    intros [Hxy Hs]%andb_true_iff.
    apply Ascii.eqb_eq in Hxy as ->. f_equal. by apply IH.
Qed.

Lemma startsWith_needs_sep c (a v : string) :
  mem c v = false → startsWith (a +:+ String c "") v = false.
Proof.
  revert v. induction a as [|x a IH]; intros [|y v]; simpl; try done.
  - rewrite mem_cons. intros [Hy _]%orb_false_iff.
    by rewrite Ascii.eqb_sym, Hy.
  - rewrite mem_cons. intros [_ Hv]%orb_false_iff.
    rewrite (IH _ Hv). apply andb_false_r.
Qed.

End StringFacts.

(** ** URI component coding *)

Module UriFacts.
Import JsString StringFacts.

Ltac each_ascii a := destruct a as [[] [] [] [] [] [] [] []].

Lemma encode_unit_append a (r : string) :
  encode_unit a r = encode_unit a "" +:+ r.
Proof. each_ascii a; reflexivity. Qed.

Lemma encode_unit_chars a : forallb uri_char (encode_unit a "") = true.
Proof. each_ascii a; reflexivity. Qed.

Lemma encode_unit_not_empty a (r : string) : encode_unit a r ≠ "".
Proof. each_ascii a; discriminate. Qed.

Lemma decode_encode_unit a (r : string) :
  decodeURIComponent (encode_unit a r) = String a <$> decodeURIComponent r.
Proof. each_ascii a; reflexivity. Qed.

Lemma encode_chars (s : string) : forallb uri_char (encodeURIComponent s) = true.
Proof.
  induction s as [|a s IH]; [done |].
  simpl. rewrite encode_unit_append, forallb_append, encode_unit_chars. done.
Qed.

(** [decodeURIComponent] undoes [encodeURIComponent]. *)
Lemma decode_encode (s : string) :
  decodeURIComponent (encodeURIComponent s) = Some s.
Proof.
  induction s as [|a s IH]; [done |].
  simpl encodeURIComponent. by rewrite decode_encode_unit, IH.
Qed.

Lemma encode_inj (s t : string) :
  encodeURIComponent s = encodeURIComponent t → s = t.
Proof.
  intros H. apply (f_equal decodeURIComponent) in H.
  rewrite !decode_encode in H. congruence.
Qed.

Lemma encode_empty (s : string) : encodeURIComponent s = "" ↔ s = "".
Proof.
  split; [| by intros ->].
  destruct s as [|a s]; [done |]. simpl. intros H.
  by apply encode_unit_not_empty in H.
Qed.

Lemma truthy_encode (s : string) : truthy (encodeURIComponent s) = truthy s.
Proof.
  destruct s as [|a s]; [done |]. simpl.
  pose proof (encode_unit_not_empty a (encodeURIComponent s)).
  by destruct (encode_unit _ _).
Qed.

(** An encoded string holds no separator and no white space. *)
Lemma encode_no (c : ascii) (s : string) :
  uri_char c = false → mem c (encodeURIComponent s) = false.
Proof. intros Hc. eapply forallb_not_mem; [exact Hc | apply encode_chars]. Qed.

Lemma uri_char_not_space a : uri_char a = true → negb (is_space a) = true.
Proof. each_ascii a; done. Qed.

Lemma uri_char_not_wsp a : uri_char a = true → negb (CookieJar.is_wsp a) = true.
Proof. each_ascii a; done. Qed.

Lemma trim_encode (s : string) :
  trim (encodeURIComponent s) = encodeURIComponent s.
Proof.
  apply strip_none. eapply forallb_impl; [apply uri_char_not_space | apply encode_chars].
Qed.

Lemma strip_wsp_encode (s : string) :
  strip CookieJar.is_wsp (encodeURIComponent s) = encodeURIComponent s.
Proof.
  apply strip_none. eapply forallb_impl; [apply uri_char_not_wsp | apply encode_chars].
Qed.

End UriFacts.

(** ** JSON: reading back what was printed *)

Module JsonFacts.
Import JsString StringFacts UriFacts.

(** *** Strings *)

Lemma quote_unit_append a (r rest : string) :
  quote_unit a r +:+ rest = quote_unit a (r +:+ rest).
Proof. each_ascii a; reflexivity. Qed.

Lemma parse_quote_unit a (r : string) :
  parse_string_body (quote_unit a r)
  = '(t, r') ← parse_string_body r; Some (String a t, r').
Proof. each_ascii a; reflexivity. Qed.

Lemma parse_quote_body (s rest : string) :
  parse_string_body (quote_body s +:+ rest) = Some (s, rest).
Proof.
  induction s as [|a s IH]; [done |].
  simpl quote_body. by rewrite quote_unit_append, parse_quote_unit, IH.
Qed.

Lemma length_quote_unit a (r : string) :
  (String.length r < String.length (quote_unit a r))%nat.
Proof. each_ascii a; simpl; lia. Qed.

Lemma length_quote (s : string) : (2 <= String.length (quote s))%nat.
Proof.
  unfold quote. simpl. assert (1 <= String.length (quote_body s))%nat; [| lia].
  induction s as [|a s IH]; simpl; [lia |].
  pose proof (length_quote_unit a (quote_body s)). lia.
Qed.

(** *** Numbers *)

Lemma delimited_take_digits (rest : string) :
  delimited rest = true → take_digits rest = (Decimal.Nil, rest).
Proof.
  destruct rest as [|c r]; [done |]. simpl.
  intros [[->%Ascii.eqb_eq | ->%Ascii.eqb_eq]%orb_true_iff | ->%Ascii.eqb_eq]%orb_true_iff;
    reflexivity.
Qed.

Lemma delimited_number_tail (rest : string) :
  delimited rest = true → parse_frac rest = Some rest ∧ parse_exp rest = Some rest.
Proof.
  destruct rest as [|c r]; [done |]. simpl.
  intros [[->%Ascii.eqb_eq | ->%Ascii.eqb_eq]%orb_true_iff | ->%Ascii.eqb_eq]%orb_true_iff;
    done.
Qed.

Lemma take_digits_string_of_uint (d : Decimal.uint) (rest : string) :
  delimited rest = true →
  take_digits (string_of_uint d +:+ rest) = (d, rest).
Proof.
  intros Hrest. induction d; simpl; [by apply delimited_take_digits | ..];
    by rewrite IHd.
Qed.

(** The digits of a positive number start with a non-zero digit. *)
Lemma to_uint_head (p : positive) :
  match Pos.to_uint p with
  | Decimal.Nil | Decimal.D0 _ => False
  | _ => True
  end.
Proof.
  pose proof (DecimalPos.Unsigned.to_of (Pos.to_uint p)) as H.
  rewrite DecimalPos.Unsigned.of_to in H. simpl in H.
  pose proof (DecimalPos.Unsigned.to_uint_nonzero p) as Hnz.
  assert (Hh : Decimal.nzhead (Pos.to_uint p) ≠ Decimal.Nil).
  { intros E. apply DecimalFacts.unorm_0 in E. congruence. }
  rewrite (DecimalFacts.unorm_nzhead _ Hh) in H.
  pose proof (DecimalFacts.nzhead_nonzero (Pos.to_uint p)) as H0.
  rewrite <- H in H0, Hh.
  destruct (Pos.to_uint p); try done. by apply (H0 u).
Qed.

Lemma parse_int_string_of_uint (d : Decimal.uint) (rest : string) :
  match d with Decimal.Nil | Decimal.D0 _ => False | _ => True end →
  delimited rest = true →
  parse_int (string_of_uint d +:+ rest) = Some (d, rest).
Proof.
  intros Hd Hrest.
  pose proof (take_digits_string_of_uint d rest Hrest) as Ht.
  destruct d; try done; unfold parse_int; simpl string_of_uint in *;
    simpl String.append in *; rewrite Ht; reflexivity.
Qed.

Lemma number_tail_delimited (negative : bool) (s : string) (d : Decimal.uint)
    (rest : string) :
  delimited rest = true →
  number_tail negative s d rest
  = Some (JNum (Z.of_int (if negative then Decimal.Neg d else Decimal.Pos d)), rest).
Proof.
  intros [Hf He]%delimited_number_tail. unfold number_tail.
  rewrite Hf. cbn [mbind option_bind]. rewrite He. cbn [mbind option_bind].
  by rewrite Nat.eqb_refl.
Qed.

Lemma number_sign_digits (d : Decimal.uint) (rest : string) :
  number_sign (string_of_uint d +:+ rest) = (false, string_of_uint d +:+ rest)
  ∨ d = Decimal.Nil.
Proof. destruct d; [by right | left; reflexivity ..]. Qed.

Lemma parse_number_string_of_Z (n : Z) (rest : string) :
  delimited rest = true →
  parse_number (string_of_Z n +:+ rest) = Some (JNum n, rest).
Proof.
  intros Hrest. rewrite <- (DecimalZ.of_to n) at 2.
  unfold string_of_Z, parse_number. destruct n as [|p|p]; simpl Z.to_int.
  - change (number_sign (string_of_uint (Decimal.D0 Decimal.Nil) +:+ rest))
      with (false, String "0" rest).
    change (parse_int (String "0" rest)) with (Some (Decimal.D0 Decimal.Nil, rest)).
    by apply number_tail_delimited.
  - pose proof (to_uint_head p) as Hp.
    destruct (number_sign_digits (Pos.to_uint p) rest) as [-> | E];
      [| by rewrite E in Hp].
    cbv beta iota. rewrite (parse_int_string_of_uint _ rest Hp Hrest).
    by apply number_tail_delimited.
  - pose proof (to_uint_head p) as Hp.
    simpl String.append.
    change (number_sign (String "-" ?r)) with (true, r).
    cbv beta iota. rewrite (parse_int_string_of_uint _ rest Hp Hrest).
    by apply number_tail_delimited.
Qed.

Lemma length_string_of_Z (n : Z) : (1 <= String.length (string_of_Z n))%nat.
Proof.
  unfold string_of_Z. destruct n as [|p|p]; simpl; [lia | | lia].
  pose proof (to_uint_head p). destruct (Pos.to_uint p); simpl; try done; lia.
Qed.

(** *** Values *)

Lemma string_of_Z_head (n : Z) :
  ∃ c r, string_of_Z n = String c r
         ∧ (Ascii.eqb c "-" || match digit_value c with Some _ => true | None => false end) = true.
Proof.
  unfold string_of_Z. destruct n as [|p|p]; simpl Z.to_int.
  - by eexists _, _.
  - pose proof (to_uint_head p). destruct (Pos.to_uint p); try done; by eexists _, _.
  - by eexists _, _.
Qed.

Lemma stringify_head (v : json) :
  plain v = true →
  ∃ c r, JSON_stringify v = String c r ∧ value_start c = true.
Proof.
  destruct v as [|[]|n|lit|s|l|l]; intros Hv; try done; try (by eexists _, _).
  destruct (string_of_Z_head n) as (c & r & Hn & Hc).
  exists c, r. split; [done |]. unfold value_start.
  apply orb_true_iff in Hc as [->| ->]; by rewrite ?orb_true_r.
Qed.

Lemma parse_value_number (fuel : nat) (n : Z) (rest : string) :
  parse_value (S fuel) (string_of_Z n +:+ rest) = parse_number (string_of_Z n +:+ rest).
Proof.
  destruct (string_of_Z_head n) as (c & r & -> & Hc). simpl String.append.
  revert Hc. each_ascii c; try discriminate; reflexivity.
Qed.

Lemma parse_value_string (fuel : nat) (s rest : string) :
  parse_value (S fuel) (quote s +:+ rest) = Some (JStr s, rest).
Proof.
  change (parse_value (S fuel) (quote s +:+ rest))
    with ('(t, r') ← parse_string_body (quote_body s +:+ rest); Some (JStr t, r')).
  by rewrite parse_quote_body.
Qed.

Lemma parse_value_array (fuel : nat) (c : ascii) (r : string) :
  value_start c = true →
  parse_value (S fuel) (String "[" (String c r))
  = '(l, r') ← parse_elements fuel (String c r); Some (JArr l, r').
Proof. each_ascii c; try discriminate; reflexivity. Qed.

Lemma parse_elements_S (fuel : nat) (s : string) :
  parse_elements (S fuel) s
  = '(v, r) ← parse_value fuel s;
    match skip_ws r with
    | String c r' =>
        if Ascii.eqb c "," then
          '(l, r'') ← parse_elements fuel r'; Some (v :: l, r'')
        else if Ascii.eqb c "]" then Some ([v], r')
        else None
    | EmptyString => None
    end.
Proof. done. Qed.

Lemma parse_members_quote (fuel : nat) (acc : list (string * json)) (k r : string) :
  parse_members (S fuel) acc (quote k +:+ String ":" r)
  = '(v, r3) ← parse_value fuel r;
    let acc' := define_member k v acc in
    match skip_ws r3 with
    | String c' r4 =>
        if Ascii.eqb c' "," then parse_members fuel acc' r4
        else if Ascii.eqb c' "}" then Some (acc', r4)
        else None
    | EmptyString => None
    end.
Proof.
  change (parse_members (S fuel) acc (quote k +:+ String ":" r))
    with ('(k', r1) ← parse_string_body (quote_body k +:+ String ":" r);
          match skip_ws r1 with
          | String c r2 =>
              if Ascii.eqb c ":" then
                '(v, r3) ← parse_value fuel r2;
                let acc' := define_member k' v acc in
                match skip_ws r3 with
                | String c' r4 =>
                    if Ascii.eqb c' "," then parse_members fuel acc' r4
                    else if Ascii.eqb c' "}" then Some (acc', r4)
                    else None
                | EmptyString => None
                end
              else None
          | EmptyString => None
          end).
  by rewrite parse_quote_body.
Qed.

Lemma define_member_fresh (k : string) (v : json) (acc : list (string * json)) :
  k ∉ map fst acc → define_member k v acc = acc ++ [(k, v)].
Proof.
  induction acc as [|[k' v'] acc IH]; [done |]. simpl.
  intros [Hk Hacc]%not_elem_of_cons.
  destruct (String.eqb_spec k k'); [done |]. by rewrite IH.
Qed.

Lemma parse_value_object (fuel : nat) (r : string) :
  parse_value (S fuel) (String "{" (String dquote r))
  = '(l, r') ← parse_members fuel [] (String dquote r); Some (JObj l, r').
Proof. reflexivity. Qed.

Lemma parse_elements_stringify (l : list json) :
  Forall reads_back l → l ≠ [] → List.forallb plain l = true →
  ∀ fuel rest, (elements_weight l <= fuel)%nat → delimited rest = true →
  parse_elements fuel (join "," (map JSON_stringify l) +:+ String "]" rest)
  = Some (l, rest).
Proof.
  induction 1 as [|x l Hx Hl IH]; [done |]. intros _ [Hdx Hdl]%andb_true_iff.
  intros [|fuel] rest Hfuel Hrest; [simpl in Hfuel; lia |].
  simpl in Hfuel. rewrite parse_elements_S. destruct l as [|y l].
  - simpl join. rewrite (Hx Hdx fuel (String "]" rest)) by (done || lia).
    reflexivity.
  - rewrite !map_cons, join_cons, !append_assoc. rewrite <- map_cons.
    change ("," +:+ ?s) with (String "," s).
    rewrite (Hx Hdx fuel (String "," _)) by (done || lia).
    cbn [mbind option_bind]. simpl skip_ws. simpl Ascii.eqb. cbv iota.
    rewrite IH; [done .. | | done]. fold (elements_weight (y :: l)) in Hfuel. lia.
Qed.

Lemma parse_members_stringify (l : list (string * json)) :
  Forall (λ kv, reads_back kv.2) l → l ≠ [] →
  ∀ acc fuel rest,
    NoDup (map fst (acc ++ l)) →
    List.forallb (λ kv, plain kv.2) l = true →
    (members_weight l <= fuel)%nat → delimited rest = true →
    parse_members fuel acc (join "," (map member_text l) +:+ String "}" rest)
    = Some (acc ++ l, rest).
Proof.
  induction 1 as [|[k v] l Hv Hl IH]; [done |]. intros _ acc.
  intros [|fuel] rest Hnd [Hdv Hdl]%andb_true_iff Hfuel Hrest; [simpl in Hfuel; lia |].
  simpl in Hfuel, Hv, Hdv.
  assert (Hk : k ∉ map fst acc).
  { rewrite map_app in Hnd. apply NoDup_app in Hnd as (_ & Hnd & _).
    intros Hin. apply (Hnd _ Hin). simpl. left. }
  destruct l as [|kv l].
  - simpl join. unfold member_text at 1. simpl fst; simpl snd.
    rewrite !append_assoc. change (":" +:+ ?s) with (String ":" s).
    rewrite parse_members_quote.
    rewrite (Hv Hdv fuel (String "}" rest)) by (done || lia).
    cbn [mbind option_bind]. simpl skip_ws. simpl Ascii.eqb. cbv iota.
    by rewrite define_member_fresh.
  - rewrite !map_cons, join_cons, !append_assoc. rewrite <- map_cons.
    unfold member_text at 1. simpl fst; simpl snd.
    rewrite !append_assoc. change (":" +:+ ?s) with (String ":" s).
    change ("," +:+ ?s) with (String "," s).
    rewrite parse_members_quote.
    rewrite (Hv Hdv fuel (String "," _)) by (done || lia).
    cbn [mbind option_bind]. simpl skip_ws. simpl Ascii.eqb. cbv iota.
    rewrite define_member_fresh by done.
    rewrite IH; [by rewrite <- app_assoc | done | | done | | done].
    + by rewrite <- app_assoc.
    + fold (members_weight (kv :: l)) in Hfuel. lia.
Qed.

Lemma join_head (f : json → string) (x : json) (l : list json) (c : ascii) (r tail : string) :
  f x = String c r →
  ∃ r', join "," (map f (x :: l)) +:+ tail = String c r'.
Proof.
  intros Hx. destruct l as [|y l]; simpl map.
  - simpl join. rewrite Hx. by eexists.
  - rewrite join_cons, Hx. by eexists.
Qed.

Lemma members_head (kv : string * json) (l : list (string * json)) (tail : string) :
  ∃ r', join "," (map member_text (kv :: l)) +:+ tail = String dquote r'.
Proof.
  destruct l as [|y l]; simpl map.
  - simpl join. by eexists.
  - rewrite join_cons. by eexists.
Qed.

(** Every value without repeated keys is read back from its text. *)
Lemma parse_stringify (v : json) : reads_back v.
Proof.
  induction v as [|b|n|lit|s|l IH|l IH] using json_ind;
    intros Hd [|fuel] rest Hfuel Hrest; try (simpl in Hfuel; lia); try done.
  - by destruct b.
  - simpl JSON_stringify. by rewrite parse_value_number, parse_number_string_of_Z.
  - simpl JSON_stringify. by rewrite parse_value_string.
  - simpl in Hd, Hfuel. fold (elements_weight l) in Hfuel.
    change (JSON_stringify (JArr l) +:+ rest)
      with (String "[" ((join "," (map JSON_stringify l) +:+ "]") +:+ rest)).
    rewrite append_assoc. change ("]" +:+ rest) with (String "]" rest).
    destruct l as [|x l]; [reflexivity |].
    destruct (stringify_head x) as (c & r & Hx & Hc);
      [by apply andb_true_iff in Hd as [? _] |].
    destruct (join_head JSON_stringify x l c r (String "]" rest) Hx) as [r' Hr'].
    rewrite Hr', (parse_value_array _ _ _ Hc), <- Hr'.
    rewrite parse_elements_stringify by (done || lia). reflexivity.
  - simpl in Hd, Hfuel. fold (members_weight l) in Hfuel.
    apply andb_true_iff in Hd as [Hnd%bool_decide_eq_true Hd].
    change (JSON_stringify (JObj l) +:+ rest)
      with (String "{" ((join "," (map member_text l) +:+ "}") +:+ rest)).
    rewrite append_assoc. change ("}" +:+ rest) with (String "}" rest).
    destruct l as [|kv l]; [reflexivity |].
    destruct (members_head kv l (String "}" rest)) as [r' Hr'].
    rewrite Hr', parse_value_object, <- Hr'.
    rewrite (parse_members_stringify (kv :: l) IH) by (done || lia). reflexivity.
Qed.

Lemma length_join_stringify (l : list json) :
  Forall (λ v, plain v = true →
               (weight v <= 2 * String.length (JSON_stringify v))%nat) l →
  List.forallb plain l = true →
  (elements_weight l <= 2 * String.length (join "," (map JSON_stringify l)) + 1)%nat.
Proof.
  induction 1 as [|x l Hx Hl IH]; [simpl; lia |].
  intros [Hpx Hpl]%andb_true_iff. specialize (Hx Hpx). specialize (IH Hpl).
  destruct l as [|y l].
  - simpl in *. lia.
  - rewrite !map_cons, join_cons, !length_append. rewrite <- map_cons.
    change (elements_weight (x :: y :: l))
      with (S (weight x + elements_weight (y :: l))).
    simpl String.length at 2. lia.
Qed.

Lemma length_join_members (l : list (string * json)) :
  Forall (λ kv, plain kv.2 = true →
                (weight kv.2 <= 2 * String.length (JSON_stringify kv.2))%nat) l →
  List.forallb (λ kv, plain kv.2) l = true →
  (members_weight l <= 2 * String.length (join "," (map member_text l)) + 1)%nat.
Proof.
  induction 1 as [|[k v] l Hv Hl IH]; [simpl; lia |].
  intros [Hpv Hpl]%andb_true_iff. simpl in Hv, Hpv.
  specialize (Hv Hpv). specialize (IH Hpl).
  assert (Hm : (String.length (JSON_stringify v) <= String.length (member_text (k, v)))%nat).
  { unfold member_text. rewrite !length_append. simpl. lia. }
  destruct l as [|y l].
  - simpl in *. lia.
  - rewrite !map_cons, join_cons, !length_append. rewrite <- map_cons.
    change (members_weight ((k, v) :: y :: l))
      with (S (weight v + members_weight (y :: l))).
    simpl String.length at 2. lia.
Qed.

(** The fuel [JSON_parse] starts from covers every printed value. *)
Lemma weight_le_length (v : json) :
  plain v = true → (weight v <= 2 * String.length (JSON_stringify v))%nat.
Proof.
  induction v as [|b|n|lit|s|l IH|l IH] using json_ind; intros Hp; try done.
  - simpl. lia.
  - destruct b; simpl; lia.
  - simpl. pose proof (length_string_of_Z n). lia.
  - simpl JSON_stringify. simpl weight. pose proof (length_quote s). lia.
  - pose proof (length_join_stringify l IH Hp) as H.
    change (weight (JArr l)) with (S (elements_weight l)).
    change (JSON_stringify (JArr l))
      with (String "[" (join "," (map JSON_stringify l) +:+ "]")).
    simpl String.length. rewrite length_append. simpl String.length. lia.
  - simpl in Hp. apply andb_true_iff in Hp as [_ Hp].
    pose proof (length_join_members l IH Hp) as H.
    change (weight (JObj l)) with (S (members_weight l)).
    change (JSON_stringify (JObj l))
      with (String "{" (join "," (map member_text l) +:+ "}")).
    simpl String.length. rewrite length_append. simpl String.length. lia.
Qed.

(** Every plain value is JSON-serializable:
    [JSON.parse(JSON.stringify(v))] is [v]. *)
Theorem plain_serializable (v : json) : plain v = true → serializable v.
Proof.
  intros Hd. unfold serializable, JSON_parse.
  pose proof (parse_stringify v Hd (2 * String.length (JSON_stringify v) + 2)%nat ""
                ltac:(pose proof (weight_le_length v Hd); lia) eq_refl) as H.
  rewrite append_empty_r in H. by rewrite H.
Qed.

End JsonFacts.

(** ** The cookie jar *)

Module JarFacts.
Import JsString StringFacts UriFacts CookieJar.

Lemma entry_ok_spec (c : string * string) :
  entry_ok c = true ↔
  mem ";" c.1 = false ∧ mem ";" c.2 = false ∧ mem "=" c.1 = false
  ∧ (truthy c.1 = false → mem "=" c.2 = false)
  ∧ trim (render c) = render c.
Proof.
  unfold entry_ok. rewrite !andb_true_iff, !negb_true_iff, orb_true_iff,
    negb_true_iff, String.eqb_eq.
  destruct (truthy c.1); intuition congruence.
Qed.

Lemma render_no_semicolon (c : string * string) :
  entry_ok c = true → mem ";" (render c) = false.
Proof.
  intros (H1 & H2 & _)%entry_ok_spec. unfold render.
  destruct (truthy c.1); [| done].
  by rewrite !mem_append, H1, H2.
Qed.

Lemma split_sep_append (a b : string) :
  mem ";" a = false →
  split ";" (a +:+ "; " +:+ b)
  = a :: match split ";" b with x :: xs => String " " x :: xs | [] => [" "] end.
Proof.
  intros Ha.
  change (a +:+ "; " +:+ b) with (a +:+ String ";" (String " " b)).
  by rewrite split_append.
Qed.

Lemma split_read (j : jar) :
  well_formed j = true → split ";" (read j) = segments j.
Proof.
  induction j as [|c j IH]; [done |].
  simpl. intros [Hc Hj]%andb_true_iff.
  destruct j as [|c' j'].
  - simpl. apply split_no_sep, render_no_semicolon, Hc.
  - unfold read in *. rewrite !map_cons, join_cons.
    rewrite split_sep_append by (by apply render_no_semicolon).
    rewrite !map_cons in IH. by rewrite (IH Hj).
Qed.

Lemma trim_space (s : string) : trim (String " " s) = trim s.
Proof. done. Qed.

Lemma trim_render (c : string * string) :
  entry_ok c = true → trim (render c) = render c.
Proof. by intros (_ & _ & _ & _ & H)%entry_ok_spec. Qed.

Lemma trim_segments (j : jar) :
  well_formed j = true → j ≠ [] → map trim (segments j) = map render j.
Proof.
  destruct j as [|c j]; [done |]. intros [Hc Hj]%andb_true_iff _.
  simpl. rewrite (trim_render _ Hc). f_equal.
  induction j as [|c' j IH]; [done |].
  apply andb_true_iff in Hj as [Hc' Hj]. simpl.
  rewrite trim_space, (trim_render _ Hc'). f_equal. by apply IH.
Qed.

Lemma lookup_store_eq n v (j : jar) : lookup n (store n v j) = Some v.
Proof.
  induction j as [|[n' v'] j IH]; simpl.
  - by rewrite String.eqb_refl.
  - destruct (String.eqb_spec n n') as [->|Hne]; simpl.
    + by rewrite String.eqb_refl.
    + by destruct (String.eqb_spec n n').
Qed.

Lemma lookup_store_ne n m v (j : jar) :
  n ≠ m → lookup n (store m v j) = lookup n j.
Proof.
  intros Hne. induction j as [|[n' v'] j IH]; simpl.
  - by destruct (String.eqb_spec n m).
  - destruct (String.eqb_spec m n') as [->|Hne']; simpl.
    + by destruct (String.eqb_spec n n').
    + by rewrite IH.
Qed.

Lemma lookup_evict_eq n (j : jar) : lookup n (evict n j) = None.
Proof.
  induction j as [|[n' v'] j IH]; [done |].
  unfold evict in *. simpl.
  destruct (String.eqb_spec n' n) as [->|Hne]; simpl; [done |].
  by destruct (String.eqb_spec n n') as [->|].
Qed.

Lemma well_formed_store n v (j : jar) :
  entry_ok (n, v) = true → well_formed j = true → well_formed (store n v j) = true.
Proof.
  intros Hc. induction j as [|[n' v'] j IH]; simpl.
  - by rewrite Hc.
  - intros [Hc' Hj]%andb_true_iff.
    destruct (String.eqb n n'); simpl.
    + by rewrite Hc, Hj.
    + by rewrite Hc', IH.
Qed.

Lemma well_formed_evict n (j : jar) :
  well_formed j = true → well_formed (evict n j) = true.
Proof.
  induction j as [|c j IH]; [done |]. simpl.
  intros [Hc Hj]%andb_true_iff.
  destruct (negb (c.1 =? n)%string); simpl; rewrite ?Hc; auto.
Qed.

End JarFacts.

(** ** Reading and writing cookies *)

Module CookieFacts.
Import JsString StringFacts UriFacts CookieJar JarFacts CookieService.

Lemma scanCookies_trim nameEQ (l l' : list string) :
  map trim l = map trim l' → scanCookies nameEQ l = scanCookies nameEQ l'.
Proof.
  revert l'. induction l as [|x l IH]; intros [|x' l']; simpl; try done.
  intros [= Hx Hl]. rewrite Hx, (IH _ Hl). done.
Qed.

Lemma map_trim_render (j : jar) :
  well_formed j = true → map trim (map render j) = map render j.
Proof.
  induction j as [|c j IH]; [done |]. simpl.
  intros [Hc Hj]%andb_true_iff. by rewrite (trim_render _ Hc), IH.
Qed.

Lemma startsWith_empty (n : string) : startsWith (n +:+ "=") "" = false.
Proof. by destruct n. Qed.

(** The scan of [document.cookie] sees the cookies of the jar, one
    segment each. *)
Lemma scanCookies_read (n : string) (j : jar) :
  well_formed j = true →
  scanCookies (n +:+ "=") (split ";" (read j)) = scanCookies (n +:+ "=") (map render j).
Proof.
  intros Hj. rewrite (split_read _ Hj). destruct j as [|c j].
  - simpl. change (trim "") with "". by rewrite startsWith_empty.
  - apply scanCookies_trim.
    by rewrite trim_segments, map_trim_render.
Qed.

Lemma scanCookies_render (name : string) (j : jar) :
  well_formed j = true →
  scanCookies (encodeURIComponent name +:+ "=") (map render j)
  = decoded (if truthy name then lookup (encodeURIComponent name) j else None).
Proof.
  intros Hj. induction j as [|[n v] j IH]; simpl.
  { by destruct (truthy name). }
  apply andb_true_iff in Hj as [Hc Hj].
  rewrite (trim_render _ Hc), (IH Hj).
  apply entry_ok_spec in Hc as (Hn1 & Hv1 & Hn2 & Hv2 & _). simpl in *.
  pose proof (encode_no "=" name eq_refl) as Hk.
  unfold render. simpl. destruct (truthy n) eqn:Hn.
  - destruct (String.eqb_spec (encodeURIComponent name) n) as [<-|Hne].
    + rewrite truthy_encode in Hn. rewrite Hn.
      rewrite <- (sep_assoc _ "=" v), startsWith_append, substring_append. done.
    + destruct (startsWith _ _) eqn:Hs; [| done].
      apply startsWith_sep in Hs; done.
  - rewrite (startsWith_needs_sep _ _ _ (Hv2 eq_refl)).
    destruct (String.eqb_spec (encodeURIComponent name) n) as [<-|Hne]; [| done].
    rewrite truthy_encode in Hn. by rewrite Hn.
Qed.

(** [getCookie] in terms of the jar. *)
Lemma getCookie_lookup (name : string) (g : Global) w d :
  window g = Some w → document g = Some d →
  well_formed (cookie d) = true →
  getCookie name g
  = decoded (if truthy name then lookup (encodeURIComponent name) (cookie d) else None).
Proof.
  intros Hw Hd Hj. unfold getCookie. rewrite Hw, Hd.
  by rewrite scanCookies_read, scanCookies_render.
Qed.

Lemma name_value_encoded (k v : string) :
  name_value (encodeURIComponent k +:+ "=" +:+ encodeURIComponent v)
  = (encodeURIComponent k, encodeURIComponent v).
Proof.
  unfold name_value.
  change (encodeURIComponent k +:+ "=" +:+ encodeURIComponent v)
    with (encodeURIComponent k +:+ String "=" (encodeURIComponent v)).
  rewrite cut_append by (by apply encode_no).
  by rewrite !strip_wsp_encode.
Qed.

(** Assigning [name=value; attributes] with an encoded name and value. *)
Lemma assign_encoded now (k v rest : string) (j : jar) :
  assign now ((encodeURIComponent k +:+ "=" +:+ encodeURIComponent v) +:+ String ";" rest) j
  = if negb (truthy k) && negb (truthy v) then j
    else match expiry (split ";" rest) None with
         | Some t =>
             if t <=? now then evict (encodeURIComponent k) j
             else store (encodeURIComponent k) (encodeURIComponent v) j
         | None => store (encodeURIComponent k) (encodeURIComponent v) j
         end.
Proof.
  unfold assign. rewrite split_append.
  - by rewrite name_value_encoded, !truthy_encode.
  - by rewrite !mem_append, !encode_no.
Qed.

Lemma trim_pair (k v : string) :
  trim (encodeURIComponent k +:+ "=" +:+ encodeURIComponent v)
  = encodeURIComponent k +:+ "=" +:+ encodeURIComponent v.
Proof.
  apply strip_none. rewrite !forallb_append. simpl.
  by rewrite !(forallb_impl _ _ _ uri_char_not_space (encode_chars _)).
Qed.

Lemma entry_ok_encoded (k v : string) :
  entry_ok (encodeURIComponent k, encodeURIComponent v) = true.
Proof.
  apply entry_ok_spec. simpl.
  rewrite !encode_no by done. repeat split; try done.
  unfold render. simpl. destruct (truthy _); [| apply trim_encode].
  apply strip_none. rewrite !forallb_append. simpl.
  rewrite !(forallb_impl _ _ _ uri_char_not_space (encode_chars _)). done.
Qed.

End CookieFacts.

(** ** The key/value stores *)

Module StorageFacts.
Import StorageService.

Lemma storage_update (a : Area) (s s' : gmap string string) (g : Global) :
  storage a g = Some s → storage a (update a s' g) = Some s'.
Proof.
  unfold storage, update. destruct (window g) as [w|]; [| done].
  by destruct a.
Qed.

Lemma storage_setItem (a : Area) key v (s : gmap string string) (g : Global) :
  storage a g = Some s →
  storage a (setItem a key v g) = Some (<[key := JSON_stringify v]> s).
Proof. intros Hs. unfold setItem. rewrite Hs. by eapply storage_update. Qed.

Lemma storage_removeItem (a : Area) key (s : gmap string string) (g : Global) :
  storage a g = Some s → storage a (removeItem a key g) = Some (delete key s).
Proof. intros Hs. unfold removeItem. rewrite Hs. by eapply storage_update. Qed.

Lemma isBrowser_storage (a : Area) (g : Global) :
  isBrowser a g = true → ∃ s, storage a g = Some s.
Proof. unfold isBrowser. destruct (storage a g); [eauto | done]. Qed.

Lemma isBrowser_false (a : Area) (g : Global) :
  isBrowser a g = false → storage a g = None.
Proof. unfold isBrowser. by destruct (storage a g). Qed.

(** Writing then reading a key. *)
Lemma getItem_setItem (a : Area) key v (g : Global) :
  isBrowser a g = true →
  getItem a key (setItem a key v g)
  = match JSON_parse (JSON_stringify v) with Some v' => v' | None => JNull end.
Proof.
  intros [s Hs]%isBrowser_storage. unfold getItem.
  rewrite (storage_setItem _ _ _ _ _ Hs), lookup_insert_eq. done.
Qed.

Lemma storage_no_browser (a : Area) (g : Global) :
  isBrowser a g = false →
  (∀ key, getItem a key g = JNull) ∧ getAllKeys a g = []
  ∧ (∀ key, hasItem a key g = false) ∧ getLength a g = 0
  ∧ (∀ key value, setItem a key value g = g)
  ∧ (∀ key, removeItem a key g = g) ∧ clear a g = g.
Proof.
  intros Hs%isBrowser_false.
  unfold getItem, getAllKeys, hasItem, getLength, setItem, removeItem, clear.
  rewrite Hs. done.
Qed.

End StorageFacts.

(** ** The cookie service *)

Import JsString StringFacts UriFacts CookieJar JarFacts CookieFacts StorageFacts.

(** *** Composing the cookie string *)

(** The composed strings as lists of directives. *)
Lemma cookieString_directives (g : Global) name value options :
  cookieString g name value options
  = join "; " (name_value_pair name value :: directives g options).
Proof.
  unfold cookieString, directives. fold (name_value_pair name value).
  destruct (expiresDate g options), (given (path options)),
    (given (domain options)), (flag (secure options)), (sameSite options);
    simpl app; rewrite ?join_cons; simpl join; rewrite ?append_assoc; reflexivity.
Qed.

Lemma createSetCookieHeader_directives (g : Global) name value options :
  createSetCookieHeader name value options g
  = join "; " (name_value_pair name value :: header_directives g options).
Proof.
  unfold createSetCookieHeader, header_directives. fold (name_value_pair name value).
  destruct (expiresDate g options), (given (path options)),
    (given (domain options)), (flag (secure options)), (sameSite options),
    (flag (httpOnly options));
    simpl app; rewrite ?join_cons; simpl join; rewrite ?append_assoc; reflexivity.
Qed.

Lemma directives_not_nil (g : Global) (options : CookieOptions) :
  directives g options ≠ [].
Proof.
  unfold directives. destruct (expiresDate g options); simpl; discriminate.
Qed.

(** The composed string is [name=value] followed by [;] and directives. *)
Lemma cookieString_shape (g : Global) name value options :
  ∃ rest,
    cookieString g name value options
    = name_value_pair name value +:+ String ";" rest.
Proof.
  rewrite cookieString_directives.
  pose proof (directives_not_nil g options) as Hd.
  destruct (directives g options) as [|d ds]; [done |].
  rewrite join_cons. by eexists.
Qed.

Lemma join_suffix (x : string) (l : list string) :
  join "; " (x :: l) = x +:+ fold_right (λ d acc, "; " +:+ d +:+ acc) "" l.
Proof.
  revert x. induction l as [|y l IH]; intros x.
  - simpl. by rewrite append_empty_r.
  - by rewrite join_cons, IH.
Qed.

Lemma expiresDate_days (g : Global) (options : CookieOptions) (n : Z) :
  expires options = Some (Days n) → n ≠ 0 →
  expiresDate g options = Some (TimeClip (now g + n * 24 * 60 * 60 * 1000)).
Proof.
  intros He Hn. unfold expiresDate. rewrite He.
  by destruct (Z.eqb_spec n 0).
Qed.

Lemma split_join (x : string) (l : list string) :
  Forall (λ s, mem ";" s = false) (x :: l) →
  split ";" (join "; " (x :: l)) = x :: map (String " ") l.
Proof.
  revert x. induction l as [|y l IH]; intros x Hx.
  - simpl. apply split_no_sep. by inversion Hx.
  - inversion Hx as [|? ? Hx1 Hx2]; subst.
    rewrite join_cons, split_sep_append by done.
    by rewrite (IH y Hx2).
Qed.

Lemma mem_string_of_uint c (d : Decimal.uint) :
  Json.digit_value c = None → mem c (Json.string_of_uint d) = false.
Proof.
  intros Hc. induction d; simpl; [done | ..];
    rewrite mem_cons, IHd, orb_false_r;
    match goal with
    | |- context [Ascii.eqb ?a c] =>
        destruct (Ascii.eqb_spec a c) as [<-|]; [discriminate Hc | done]
    end.
Qed.

Lemma mem_string_of_Z (n : Z) : mem ";" (Json.string_of_Z n) = false.
Proof.
  unfold Json.string_of_Z. destruct (Z.to_int n); [| rewrite mem_cons];
    by rewrite mem_string_of_uint.
Qed.

Lemma mem_zeros (k : nat) : mem ";" (String.concat "" (repeat "0" k)) = false.
Proof.
  induction k as [|k IH]; [done |].
  simpl. destruct (repeat "0" k) eqn:E; [done |].
  simpl in IH |- *. by rewrite mem_cons, IH.
Qed.

Lemma mem_pad (w : nat) (n : Z) : mem ";" (pad w n) = false.
Proof. unfold pad. by rewrite mem_append, mem_zeros, mem_string_of_Z. Qed.

Lemma mem_day_name (i : nat) : mem ";" (nth i day_names "") = false.
Proof. do 7 (destruct i as [|i]; [done |]). by destruct i. Qed.

Lemma mem_month_name (i : nat) : mem ";" (nth i month_names "") = false.
Proof. do 12 (destruct i as [|i]; [done |]). by destruct i. Qed.

(** A printed date holds no semicolon. *)
Lemma mem_toUTCString (d : Date) : mem ";" (toUTCString d) = false.
Proof.
  destruct d as [t|]; [| done]. unfold toUTCString.
  destruct (civil_from_days _) as [[y m] dd].
  rewrite !mem_append, !mem_pad, mem_day_name, mem_month_name.
  by destruct (y <? 0).
Qed.

Lemma given_Some (o : option string) (s : string) :
  given o = Some s → o = Some s.
Proof. destruct o as [x|]; [| done]. simpl. by destruct (truthy x). Qed.

Lemma name_value_pair_no_semicolon name value :
  mem ";" (name_value_pair name value) = false.
Proof. unfold name_value_pair. by rewrite !mem_append, !encode_no. Qed.

Section Directives.
Context (g : Global) (options : CookieOptions).
Hypothesis path_plain : ∀ p, path options = Some p → mem ";" p = false.
Hypothesis domain_plain : ∀ d, domain options = Some d → mem ";" d = false.

Lemma directives_no_semicolon :
  Forall (λ s, mem ";" s = false) (directives g options).
Proof using path_plain domain_plain.
  unfold directives. rewrite !Forall_app. repeat split.
  - destruct (expiresDate g options); repeat constructor.
    by rewrite mem_append, mem_toUTCString.
  - repeat constructor. destruct (given (path options)) eqn:E; [| done].
    rewrite mem_append. by rewrite (path_plain _ (given_Some _ _ E)).
  - destruct (given (domain options)) eqn:E; repeat constructor.
    rewrite mem_append. by rewrite (domain_plain _ (given_Some _ _ E)).
  - destruct (flag (secure options)); repeat constructor.
  - destruct (sameSite options) as [[]|]; repeat constructor.
Qed.

Lemma header_directives_no_semicolon :
  Forall (λ s, mem ";" s = false) (header_directives g options).
Proof using path_plain domain_plain.
  unfold header_directives. rewrite !Forall_app. repeat split.
  - destruct (expiresDate g options); repeat constructor.
    by rewrite mem_append, mem_toUTCString.
  - repeat constructor. destruct (given (path options)) eqn:E; [| done].
    rewrite mem_append. by rewrite (path_plain _ (given_Some _ _ E)).
  - destruct (given (domain options)) eqn:E; repeat constructor.
    rewrite mem_append. by rewrite (domain_plain _ (given_Some _ _ E)).
  - destruct (flag (secure options)); repeat constructor.
  - destruct (sameSite options) as [[]|]; repeat constructor.
  - destruct (flag (httpOnly options)); repeat constructor.
Qed.

Lemma has_directive_cookieString name value (d : string) :
  has_directive d (cookieString g name value options)
  = existsb (λ s, String.eqb (directive_name (String " " s)) (toLowerCase d))
      (directives g options).
Proof using path_plain domain_plain.
  unfold has_directive. rewrite cookieString_directives, split_join.
  - simpl tl. induction (directives g options) as [|x l IH]; [done |].
    simpl. by rewrite IH.
  - constructor; [apply name_value_pair_no_semicolon | apply directives_no_semicolon].
Qed.

Lemma has_directive_createSetCookieHeader name value (d : string) :
  has_directive d (createSetCookieHeader name value options g)
  = existsb (λ s, String.eqb (directive_name (String " " s)) (toLowerCase d))
      (header_directives g options).
Proof using path_plain domain_plain.
  unfold has_directive. rewrite createSetCookieHeader_directives, split_join.
  - simpl tl. induction (header_directives g options) as [|x l IH]; [done |].
    simpl. by rewrite IH.
  - constructor; [apply name_value_pair_no_semicolon | apply header_directives_no_semicolon].
Qed.

End Directives.

(** *** Writing and removing cookies *)

Lemma isBrowser_true (g : Global) :
  CookieService.isBrowser g = true → ∃ w d, window g = Some w ∧ document g = Some d.
Proof.
  unfold CookieService.isBrowser.
  destruct (window g), (document g); try done. eauto.
Qed.

Lemma cookie_no_browser (g : Global) :
  CookieService.isBrowser g = false →
  (∀ name, getCookie name g = JNull) ∧ getAllCookies g = ∅
  ∧ (∀ name, hasCookie name g = false)
  ∧ (∀ name value options, setCookie name value options g = g)
  ∧ (∀ name options, removeCookie name options g = g).
Proof.
  unfold CookieService.isBrowser, hasCookie, removeCookie, getCookie,
    getAllCookies, setCookie.
  destruct (window g), (document g); done.
Qed.

(** The jar after [setCookie(name, value)] with default options. *)
Lemma setCookie_default (name : string) (value : json) (g : Global) w d :
  window g = Some w → document g = Some d →
  setCookie name value no_options g
  = MkGlobal (Some w)
      (Some (MkDocument
               (if negb (truthy name) && negb (truthy (stringValue value))
                then cookie d
                else store (encodeURIComponent name)
                       (encodeURIComponent (stringValue value)) (cookie d))))
      (now g).
Proof.
  intros Hw Hd. unfold setCookie. rewrite Hw, Hd. do 3 f_equal.
  change (cookieString g name value no_options)
    with ((encodeURIComponent name +:+ "=" +:+ encodeURIComponent (stringValue value))
            +:+ String ";" " path=/").
  by rewrite assign_encoded.
Qed.

(** Writing then reading a cookie, default options. *)
Lemma getCookie_setCookie (name : string) (value : json) (g : Global) :
  CookieService.isBrowser g = true → cookies_well_formed g = true → name ≠ "" →
  getCookie name (setCookie name value no_options g) = parseOrRaw (stringValue value).
Proof.
  intros (w & d & Hw & Hd)%isBrowser_true Hj Hname.
  unfold cookies_well_formed in Hj. rewrite Hd in Hj.
  rewrite (setCookie_default _ _ _ _ _ Hw Hd).
  assert (Ht : truthy name = true) by (by destruct name).
  rewrite Ht. simpl negb. cbv iota.
  erewrite getCookie_lookup; [| reflexivity | reflexivity |].
  - simpl cookie. rewrite Ht, lookup_store_eq. unfold decoded.
    by rewrite decode_encode.
  - simpl cookie. apply well_formed_store; [apply entry_ok_encoded | done].
Qed.

(** The jar after [removeCookie(name)] with default options: the cookie
    string carries [expires=Thu, 01 Jan 1970 00:00:00 GMT]. *)
Lemma removeCookie_default (name : string) (g : Global) w d :
  window g = Some w → document g = Some d →
  removeCookie name no_options g
  = MkGlobal (Some w)
      (Some (MkDocument
               (if negb (truthy name) then cookie d
                else if 0 <=? now g then evict (encodeURIComponent name) (cookie d)
                else store (encodeURIComponent name) "" (cookie d))))
      (now g).
Proof.
  intros Hw Hd. unfold removeCookie, setCookie. rewrite Hw, Hd. do 3 f_equal.
  rewrite cookieString_directives.
  change (join "; " _)
    with ((encodeURIComponent name +:+ "=" +:+ encodeURIComponent "")
            +:+ String ";" " expires=Thu, 01 Jan 1970 00:00:00 GMT; path=/").
  rewrite assign_encoded.
  change (expiry (split ";" " expires=Thu, 01 Jan 1970 00:00:00 GMT; path=/") None)
    with (Some 0).
  simpl truthy at 2. by rewrite andb_true_r.
Qed.

(** Writing through the adapter keeps the jar well formed, whatever the
    options: the cookie stored has an encoded name and value. *)
Lemma cookies_well_formed_setCookie (name : string) (value : json)
    (options : CookieOptions) (g : Global) :
  cookies_well_formed g = true →
  cookies_well_formed (setCookie name value options g) = true.
Proof.
  intros Hj. unfold setCookie.
  destruct (window g) as [w|]; [| done].
  destruct (document g) as [d|] eqn:Hd; [| done].
  unfold cookies_well_formed in *. rewrite Hd in Hj. simpl.
  destruct (cookieString_shape g name value options) as [rest ->].
  unfold name_value_pair. rewrite assign_encoded.
  destruct (negb _ && negb _); [done |].
  destruct (expiry _ _) as [t|]; [destruct (t <=? now g) |];
    auto using well_formed_evict, well_formed_store, entry_ok_encoded.
Qed.

Lemma cookies_well_formed_removeCookie (name : string) (options : CookieOptions)
    (g : Global) :
  cookies_well_formed g = true →
  cookies_well_formed (removeCookie name options g) = true.
Proof. apply cookies_well_formed_setCookie. Qed.

(** Removing a cookie after writing it, default options. *)
Lemma getCookie_removeCookie (name : string) (value : json) (g : Global) :
  cookies_well_formed g = true → 0 <= now g →
  getCookie name (removeCookie name no_options (setCookie name value no_options g)) = JNull.
Proof.
  intros Hj Hnow.
  pose proof (cookies_well_formed_setCookie name value no_options g Hj) as Hj1.
  destruct (CookieService.isBrowser g) eqn:Hb.
  - apply isBrowser_true in Hb as (w & d & Hw & Hd).
    rewrite (setCookie_default _ _ _ _ _ Hw Hd) in *.
    set (j1 := if negb (truthy name) && negb (truthy (stringValue value))
               then cookie d else _) in *.
    erewrite removeCookie_default; [| reflexivity | reflexivity].
    simpl now. simpl cookie.
    apply Z.leb_le in Hnow. rewrite Hnow.
    unfold cookies_well_formed in Hj1. simpl in Hj1.
    erewrite getCookie_lookup; [| reflexivity | reflexivity |]; simpl cookie.
    + destruct (truthy name); simpl; [| done]. by rewrite lookup_evict_eq.
    + destruct (truthy name); simpl; [| done]. by apply well_formed_evict.
  - destruct (cookie_no_browser g Hb) as (H1 & _ & _ & H4 & H5).
    by rewrite H4, H5, H1.
Qed.

(** *** Parsing cookie strings *)

Lemma collect_cons (cookie : string) (rest : list string) (m : gmap string string) :
  collect (cookie :: rest) m
  = match split "=" (trim cookie) with
    | name :: value :: _ =>
        if truthy name && truthy value then
          k ← decodeURIComponent name;
          v ← decodeURIComponent value;
          collect rest (setProperty k v m)
        else collect rest m
    | _ => collect rest m
    end.
Proof. done. Qed.

Lemma collect_occurrences (cookieArray : list string) (cookies : gmap string string) :
  collect cookieArray cookies
  = ps ← occurrences cookieArray;
    Some (fold_left (λ m p, setProperty p.1 p.2 m) ps cookies).
Proof.
  revert cookies. induction cookieArray as [|cookie rest IH]; intros cookies; [done |].
  simpl. destruct (split "=" (trim cookie)) as [|name [|value parts]]; try apply IH.
  destruct (truthy name && truthy value); [| apply IH].
  destruct (decodeURIComponent name) as [k|]; [| done]. simpl.
  destruct (decodeURIComponent value) as [v|]; [| done]. simpl.
  rewrite IH. by destruct (occurrences rest).
Qed.

Lemma last_occurrence_snoc (k : string) (ps : list (string * string)) p :
  last_occurrence k (ps ++ [p])
  = if String.eqb k p.1 then Some p.2 else last_occurrence k ps.
Proof. unfold last_occurrence. rewrite rev_unit. by destruct p. Qed.

(** Assignments to the same property overwrite one another: the last one
    stands. *)
Lemma lookup_assignments (k : string) (ps : list (string * string))
    (cookies : gmap string string) :
  k ≠ "__proto__" →
  fold_left (λ m p, setProperty p.1 p.2 m) ps cookies !! k
  = match last_occurrence k ps with
    | Some v => Some v
    | None => cookies !! k
    end.
Proof.
  intros Hk. induction ps as [|p ps IH] using rev_ind; [done |].
  rewrite fold_left_app, last_occurrence_snoc. simpl. unfold setProperty.
  destruct (String.eqb_spec k p.1) as [->|Hne].
  - destruct (String.eqb_spec p.1 "__proto__"); [done |].
    by rewrite lookup_insert_eq.
  - destruct (String.eqb_spec p.1 "__proto__"); [done |].
    by rewrite lookup_insert_ne.
Qed.

Lemma parse_lookup (header : string) (ps : list (string * string)) (k : string) :
  occurrences (split ";" header) = Some ps → k ≠ "__proto__" →
  (match collect (split ";" header) ∅ with Some cookies => cookies | None => ∅ end) !! k
  = last_occurrence k ps.
Proof.
  intros Hps Hk. rewrite collect_occurrences, Hps. simpl.
  rewrite lookup_assignments by done. by destruct (last_occurrence k ps).
Qed.

Lemma collect_trim (l l' : list string) (m : gmap string string) :
  map trim l = map trim l' → collect l m = collect l' m.
Proof.
  revert l' m. induction l as [|x l IH]; intros [|x' l'] m; simpl; try done.
  intros [= Hx Hl]. rewrite Hx.
  destruct (split "=" (trim x')) as [|name [|value parts]]; try by apply IH.
  destruct (truthy name && truthy value); [| by apply IH].
  destruct (decodeURIComponent name); [| done]. simpl.
  destruct (decodeURIComponent value); [| done]. simpl. by apply IH.
Qed.

Lemma collect_read (j : jar) (m : gmap string string) :
  well_formed j = true → collect (split ";" (read j)) m = collect (map render j) m.
Proof.
  intros Hj. rewrite (split_read _ Hj). destruct j as [|c j]; [done |].
  apply collect_trim. by rewrite trim_segments, map_trim_render.
Qed.

Lemma collect_app (l1 l2 : list string) (m : gmap string string) :
  collect (l1 ++ l2) m = collect l1 m ≫= collect l2.
Proof.
  revert m. induction l1 as [|x l1 IH]; intros m; [done |]. simpl.
  destruct (split "=" (trim x)) as [|name [|value parts]]; try apply IH.
  destruct (truthy name && truthy value); [| apply IH].
  destruct (decodeURIComponent name); [| done]. simpl.
  destruct (decodeURIComponent value); [| done]. simpl. apply IH.
Qed.

Lemma getAllCookies_read (g : Global) w d :
  window g = Some w → document g = Some d →
  getAllCookies g = parseCookiesFromHeader (Some (read (cookie d))).
Proof.
  intros Hw Hd. unfold getAllCookies, parseCookiesFromHeader. rewrite Hw, Hd.
  simpl given. by destruct (read (cookie d)).
Qed.

Lemma well_formed_app (j1 j2 : jar) :
  well_formed (j1 ++ j2) = well_formed j1 && well_formed j2.
Proof. apply forallb_app. Qed.

Lemma lookup_app_None n (j1 j2 : jar) :
  lookup n j1 = None → lookup n (j1 ++ j2) = lookup n j2.
Proof.
  induction j1 as [|[n' v'] j1 IH]; [done |]. simpl.
  by destruct (String.eqb n n').
Qed.

(** The header built for a string value under any key other than [Path]
    and [__proto__] parses back to that value. *)
Lemma header_round_trip (key value : string) (g : Global) :
  key ≠ "" → value ≠ "" → key ≠ "Path" → key ≠ "__proto__" →
  parseCookiesFromHeader (Some (createSetCookieHeader key (JStr value) no_options g)) !! key
  = Some value.
Proof.
  intros Hk Hv Hpath Hproto.
  change (createSetCookieHeader key (JStr value) no_options g)
    with ((encodeURIComponent key +:+ "=" +:+ encodeURIComponent value)
            +:+ String ";" " Path=/").
  unfold parseCookiesFromHeader, given.
  assert (Hne : truthy ((encodeURIComponent key +:+ "=" +:+ encodeURIComponent value)
                          +:+ String ";" " Path=/") = true).
  { destruct (encodeURIComponent key); reflexivity. }
  rewrite Hne, split_append by (by rewrite !mem_append, !encode_no).
  change (split ";" " Path=/") with [" Path=/"].
  rewrite collect_cons, trim_pair.
  change (?a +:+ "=" +:+ ?b) with (a +:+ String "=" b).
  rewrite split_append, split_no_sep by (by apply encode_no).
  rewrite !truthy_encode, !decode_encode.
  destruct key as [|a key]; [done |]. destruct value as [|b value]; [done |].
  simpl truthy. cbn [andb mbind option_bind].
  unfold setProperty at 1. destruct (String.eqb_spec (String a key) "__proto__"); [done |].
  change (collect [" Path=/"] ?m) with (Some (setProperty "Path" "/" m)).
  unfold setProperty. simpl String.eqb. cbv iota.
  by rewrite lookup_insert_ne, lookup_insert_eq.
Qed.

(** A cookie with an empty value is skipped by the parse loop. *)
Lemma collect_empty_value (c : string * string) (rest : list string)
    (m : gmap string string) :
  entry_ok c = true → c.2 = "" → collect (render c :: rest) m = collect rest m.
Proof.
  destruct c as [n v]. intros Hc Hv. simpl in Hv. subst v. rewrite collect_cons.
  rewrite (trim_render _ Hc).
  apply entry_ok_spec in Hc as (_ & _ & Hn & _). simpl in Hn.
  unfold render. simpl fst; simpl snd. destruct (truthy n); [| done].
  change (n +:+ "=" +:+ "") with (n +:+ String "=" "").
  rewrite (split_append _ _ _ Hn). simpl split. cbv iota.
  simpl truthy. by rewrite andb_false_r.
Qed.

(** A value holding [=] is cut at its first [=]. *)
Lemma collect_truncated (n v1 v2 : string) (rest : list string)
    (m : gmap string string) :
  entry_ok (n, v1 +:+ "=" +:+ v2) = true → entry_ok (n, v1) = true →
  truthy n = true → mem "=" v1 = false →
  collect (render (n, v1 +:+ "=" +:+ v2) :: rest) m
  = collect (render (n, v1) :: rest) m.
Proof.
  intros Hc Hc1 Hn Hv1. rewrite !collect_cons.
  rewrite (trim_render _ Hc), (trim_render _ Hc1).
  apply entry_ok_spec in Hc as (_ & _ & Hn' & _). simpl in Hn'.
  unfold render. simpl fst; simpl snd. rewrite Hn.
  repeat change ("=" +:+ ?x) with (String "=" x).
  rewrite !(split_append _ n _ Hn'), (split_append _ v1 _ Hv1), (split_no_sep _ v1 Hv1).
  by destruct (split "=" v2).
Qed.

Lemma getAllCookies_jar (g : Global) w (j : jar) :
  window g = Some w → well_formed j = true →
  getAllCookies (MkGlobal (window g) (Some (MkDocument j)) (now g))
  = match collect (map render j) ∅ with Some cookies => cookies | None => ∅ end.
Proof.
  intros Hw Hj. unfold getAllCookies. simpl. rewrite Hw. by rewrite collect_read.
Qed.

(** * The properties of the specification *)




(** C2 (amended).  When the same key occurs more than once in a parsed
    cookie header (all of whose names and values URL-decode),
    [parseCookiesFromHeader] and [getAllCookies] map that key to the
    value of its last occurrence: each occurrence overwrites the one
    before.  (The key is any but [__proto__], which names no own
    property.) *)
Theorem C2_last_occurrence_wins (header : string) (ps : list (string * string))
    (key : string) (g : Global) (w : Window) (d : Document) :
  occurrences (split ";" header) = Some ps →
  key ≠ "__proto__" →
  window g = Some w → document g = Some d → read (cookie d) = header →
  parseCookiesFromHeader (Some header) !! key = last_occurrence key ps
  ∧ getAllCookies g !! key = last_occurrence key ps.
Proof.
  intros Hps Hk Hw Hd Hread. split.
  - unfold parseCookiesFromHeader. simpl given. destruct header as [|c header].
    + simpl in Hps. by injection Hps as <-.
    + simpl truthy. cbv iota. by apply parse_lookup.
  - unfold getAllCookies. rewrite Hw, Hd, Hread. by apply parse_lookup.
Qed.

Lemma C2_last_occurrence_wins_witness :
  let g := MkGlobal (Some (MkWindow None None))
             (Some (MkDocument [("a", "1"); ("b", "x"); ("a", "2")])) 0 in
  occurrences (split ";" "a=1; b=x; a=2") = Some [("a", "1"); ("b", "x"); ("a", "2")]
  ∧ parseCookiesFromHeader (Some "a=1; b=x; a=2") !! "a" = Some "2"
  ∧ getAllCookies g !! "a" = Some "2".
Proof.
  intros g. split; [reflexivity |].
  apply (C2_last_occurrence_wins "a=1; b=x; a=2" [("a", "1"); ("b", "x"); ("a", "2")] "a" g
           (MkWindow None None) (MkDocument [("a", "1"); ("b", "x"); ("a", "2")]));
    try reflexivity.
  discriminate.
Defined.

(** C2 as stated fails: in ["a=1; a=2"] the key [a] occurs twice, its
    first occurrence has the value ["1"], and the parse maps it to
    ["2"]. *)
Lemma C2_counterexample :
  occurrences (split ";" "a=1; a=2") = Some [("a", "1"); ("a", "2")]
  ∧ first_occurrence "a" [("a", "1"); ("a", "2")] = Some "1"
  ∧ parseCookiesFromHeader (Some "a=1; a=2") !! "a" = Some "2"
  ∧ parseCookiesFromHeader (Some "a=1; a=2") !! "a"
    ≠ first_occurrence "a" [("a", "1"); ("a", "2")].
Proof.
  assert (H : parseCookiesFromHeader (Some "a=1; a=2") !! "a" = Some "2")
    by (vm_compute; reflexivity).
  split; [reflexivity |]. split; [reflexivity |]. split; [exact H |].
  rewrite H. discriminate.
Qed.



(** C4.  Without a browser context (each service's [isBrowser()] guard
    fails) the reads return their neutral default ([null], the empty
    mapping, the empty list, [false], [0]) and the writes return the
    environment unchanged.  No method can fault: every function is total
    and the modelled exceptions are all caught. *)
Theorem C4_no_browser_defaults (g : Global) :
  CookieService.isBrowser g = false →
  (∀ a, StorageService.isBrowser a g = false) →
  ((∀ name, getCookie name g = JNull)
   ∧ getAllCookies g = ∅
   ∧ (∀ name, hasCookie name g = false)
   ∧ (∀ name value options, setCookie name value options g = g)
   ∧ (∀ name options, removeCookie name options g = g))
  ∧ (∀ a,
       (∀ key, StorageService.getItem a key g = JNull)
       ∧ StorageService.getAllKeys a g = []
       ∧ (∀ key, StorageService.hasItem a key g = false)
       ∧ StorageService.getLength a g = 0
       ∧ (∀ key value, StorageService.setItem a key value g = g)
       ∧ (∀ key, StorageService.removeItem a key g = g)
       ∧ StorageService.clear a g = g).
Proof.
  intros Hc Hs. split.
  - by apply cookie_no_browser.
  - intros a. apply storage_no_browser, Hs.
Qed.

Lemma C4_no_browser_defaults_witness :
  CookieService.isBrowser server = false
  ∧ (∀ a, StorageService.isBrowser a server = false)
  ∧ getCookie "token" server = JNull
  ∧ LocalStorageService.getLength server = 0
  ∧ SessionStorageService.setItem "k" (JNum 1) server = server.
Proof.
  assert (Hs : ∀ a, StorageService.isBrowser a server = false) by (intros []; reflexivity).
  destruct (C4_no_browser_defaults server eq_refl Hs) as [(H1 & _) H2].
  split; [reflexivity |]. split; [exact Hs |]. split; [apply H1 |].
  split.
  - apply (H2 LocalArea).
  - apply (H2 SessionArea).
Defined.






(** C7.  Parsing the header built for the plain string value ["v"] under
    the key ["k"] with no options yields a mapping in which ["k"] maps to
    ["v"]. *)
Theorem C7_header_round_trip (g : Global) :
  parseCookiesFromHeader (Some (createSetCookieHeader "k" (JStr "v") no_options g)) !! "k"
  = Some "v".
Proof. vm_compute. reflexivity. Qed.

(** C8 (amended).  When the [path] and [domain] options hold no
    semicolon, the string returned by [createSetCookieHeader] carries the
    [HttpOnly] directive exactly when [options.httpOnly] is set, and the
    string composed by [setCookie] never carries it. *)
Theorem C8_httpOnly_directive (name : string) (value : json)
    (options : CookieOptions) (g : Global) :
  (∀ p, path options = Some p → mem ";" p = false) →
  (∀ d, domain options = Some d → mem ";" d = false) →
  has_directive "HttpOnly" (createSetCookieHeader name value options g)
  = flag (httpOnly options)
  ∧ has_directive "HttpOnly" (cookieString g name value options) = false.
Proof.
  intros Hp Hd. split.
  - rewrite has_directive_createSetCookieHeader by done. unfold header_directives.
    destruct (expiresDate g options), (given (path options)),
      (given (domain options)), (flag (secure options)),
      (sameSite options) as [[]|], (flag (httpOnly options)); reflexivity.
  - rewrite has_directive_cookieString by done. unfold directives.
    destruct (expiresDate g options), (given (path options)),
      (given (domain options)), (flag (secure options)),
      (sameSite options) as [[]|]; reflexivity.
Qed.

Lemma C8_httpOnly_directive_witness :
  let options := MkOptions None (Some "/app") (Some "example.com") (Some true)
                   (Some strict) (Some true) in
  has_directive "HttpOnly" (createSetCookieHeader "sid" (JNum 7) options page) = true
  ∧ has_directive "HttpOnly" (cookieString page "sid" (JNum 7) options) = false.
Proof.
  intros options.
  apply (C8_httpOnly_directive "sid" (JNum 7) options page).
  - intros p [= <-]. reflexivity.
  - intros d [= <-]. reflexivity.
Defined.

(** C8 as stated fails when an option smuggles a directive in: [path] and
    [domain] are appended verbatim, so the path ["/; HttpOnly"] puts an
    [HttpOnly] directive into the string [setCookie] composes, and into
    the header built with [httpOnly] unset. *)
Lemma C8_counterexample :
  let options := MkOptions None (Some "/; HttpOnly") None None None None in
  cookieString page "a" (JStr "b") options = "a=b; path=/; HttpOnly"
  ∧ has_directive "HttpOnly" (cookieString page "a" (JStr "b") options) = true
  ∧ flag (httpOnly options) = false
  ∧ has_directive "HttpOnly" (createSetCookieHeader "a" (JStr "b") options server) = true.
Proof. vm_compute. repeat split; reflexivity. Qed.

(** C9.  In a browser context, after [setItem(key, null)] the text stored
    under [key] is ["null"], so [hasItem(key)] is [true] while
    [getItem(key)] is [null], the value also returned for a missing key.
    ([a] ranges over the localStorage and sessionStorage services.) *)
Theorem C9_has_get_disagree (a : Area) (key : string) (g : Global) :
  StorageService.isBrowser a g = true →
  let g' := StorageService.setItem a key JNull g in
  (StorageService.storage a g' ≫= λ s, s !! key) = Some "null"
  ∧ StorageService.hasItem a key g' = true
  ∧ StorageService.getItem a key g' = JNull.
Proof.
  intros [s Hs]%isBrowser_storage g'.
  unfold StorageService.hasItem, StorageService.getItem. subst g'.
  rewrite (storage_setItem _ _ _ _ _ Hs). simpl.
  rewrite lookup_insert_eq. done.
Qed.

Lemma C9_has_get_disagree_witness :
  StorageService.isBrowser LocalArea page = true
  ∧ LocalStorageService.hasItem "k" (LocalStorageService.setItem "k" JNull page) = true
  ∧ LocalStorageService.getItem "k" (LocalStorageService.setItem "k" JNull page) = JNull.
Proof.
  split; [reflexivity |].
  apply (C9_has_get_disagree LocalArea "k" page). reflexivity.
Defined.



Example getAll_versus_get_sample :
  getAllCookies page_with_cookies = {["k" := "a"]}
  ∧ getCookie "e" page_with_cookies = JStr ""
  ∧ getCookie "k" page_with_cookies = JStr "a=b"
  ∧ parseCookiesFromHeader (Some "e=; k=a=b") = {["k" := "a"]}.
Proof. vm_compute. repeat split; reflexivity. Qed.

(** * Further properties of the services *)

(** ** The storage services *)

Lemma update_update (a : Area) (s s' : gmap string string) (g : Global) :
  StorageService.update a s' (StorageService.update a s g)
  = StorageService.update a s' g.
Proof. by destruct g as [[w|] d t], a. Qed.

Lemma update_same (a : Area) (s : gmap string string) (g : Global) :
  StorageService.storage a g = Some s → StorageService.update a s g = g.
Proof.
  unfold StorageService.storage, StorageService.update.
  destruct g as [[[l s']|] d t], a; simpl; intros; by simplify_eq.
Qed.

Lemma storage_update_other (a b : Area) (s : gmap string string) (g : Global) :
  a ≠ b →
  StorageService.storage b (StorageService.update a s g)
  = StorageService.storage b g.
Proof.
  by destruct g as [[w|] d t], a, b.
Qed.

Lemma document_update (a : Area) (s : gmap string string) (g : Global) :
  document (StorageService.update a s g) = document g.
Proof. by destruct g as [[w|] d t]. Qed.

Lemma storage_clear (a : Area) (g : Global) (s : gmap string string) :
  StorageService.storage a g = Some s →
  StorageService.storage a (StorageService.clear a g) = Some ∅.
Proof.
  intros Hs. unfold StorageService.clear. rewrite Hs.
  by apply storage_update with s.
Qed.

(** The storage object after a call: unchanged without a browser. *)
Lemma storage_setItem_eq (a : Area) key v (g : Global) :
  StorageService.storage a (StorageService.setItem a key v g)
  = <[key := JSON_stringify v]> <$> StorageService.storage a g.
Proof.
  destruct (StorageService.storage a g) as [s|] eqn:Hs.
  - by rewrite (storage_setItem _ _ _ _ _ Hs).
  - unfold StorageService.setItem. by rewrite Hs, Hs.
Qed.

Lemma storage_removeItem_eq (a : Area) key (g : Global) :
  StorageService.storage a (StorageService.removeItem a key g)
  = delete key <$> StorageService.storage a g.
Proof.
  destruct (StorageService.storage a g) as [s|] eqn:Hs.
  - by rewrite (storage_removeItem _ _ _ _ Hs).
  - unfold StorageService.removeItem. by rewrite Hs, Hs.
Qed.

(** ** The cookie jar *)

Lemma lookup_evict_ne n m (j : jar) :
  n ≠ m → lookup n (evict m j) = lookup n j.
Proof.
  intros Hne. induction j as [|[n' v] j IH]; [done |].
  unfold evict in *. simpl. destruct (String.eqb_spec n' m) as [-> | Hm]; simpl.
  - destruct (String.eqb_spec n m); [done | apply IH].
  - by rewrite IH.
Qed.

Lemma store_store n v v' (j : jar) : store n v' (store n v j) = store n v' j.
Proof.
  induction j as [|[n' w] j IH]; simpl.
  - by rewrite String.eqb_refl.
  - destruct (String.eqb_spec n n') as [-> | Hne]; simpl.
    + by rewrite String.eqb_refl.
    + destruct (String.eqb_spec n n'); [done | by rewrite IH].
Qed.

Lemma evict_store n v (j : jar) : evict n (store n v j) = evict n j.
Proof.
  unfold evict. induction j as [|[n' w] j IH]; simpl.
  - by rewrite String.eqb_refl.
  - destruct (String.eqb_spec n n') as [-> | Hne]; simpl.
    + by rewrite String.eqb_refl.
    + destruct (String.eqb_spec n' n); [done | simpl; by rewrite IH].
Qed.

(** The state [setCookie] leaves in a browser: the cookie is stored,
    evicted (an [expires] in the past), or the string is ignored. *)
Lemma setCookie_jar (name : string) (value : json) (options : CookieOptions)
    (g : Global) w d :
  window g = Some w → document g = Some d →
  ∃ j', setCookie name value options g
        = MkGlobal (Some w) (Some (MkDocument j')) (now g)
        ∧ ((truthy name = false ∧ j' = cookie d)
           ∨ j' = evict (encodeURIComponent name) (cookie d)
           ∨ j' = store (encodeURIComponent name)
                    (encodeURIComponent (stringValue value)) (cookie d)).
Proof.
  intros Hw Hd. unfold setCookie. rewrite Hw, Hd.
  destruct (cookieString_shape g name value options) as [rest ->].
  unfold name_value_pair. rewrite assign_encoded.
  eexists; split; [reflexivity |].
  destruct (truthy name); simpl.
  - destruct (expiry _ _) as [t|]; [destruct (t <=? now g) |]; auto.
  - destruct (negb _); [auto |].
    destruct (expiry _ _) as [t|]; [destruct (t <=? now g) |]; auto.
Qed.

Lemma isBrowser_setCookie name value options (g : Global) :
  CookieService.isBrowser (setCookie name value options g)
  = CookieService.isBrowser g.
Proof.
  by destruct g as [[w|] [d|] t].
Qed.

Lemma window_setCookie name value options (g : Global) :
  window (setCookie name value options g) = window g.
Proof.
  by destruct g as [[w|] [d|] t].
Qed.

Lemma now_setCookie name value options (g : Global) :
  now (setCookie name value options g) = now g.
Proof.
  by destruct g as [[w|] [d|] t].
Qed.

(** ** Statements *)




(** X3 (storage, other keys): writing or removing one key changes neither
    what [getItem] returns nor what [hasItem] answers for another key. *)
Theorem storage_other_key (a : Area) (key key' : string) (v : json) (g : Global) :
  key ≠ key' →
  StorageService.getItem a key' (StorageService.setItem a key v g)
  = StorageService.getItem a key' g
  ∧ StorageService.hasItem a key' (StorageService.setItem a key v g)
    = StorageService.hasItem a key' g
  ∧ StorageService.getItem a key' (StorageService.removeItem a key g)
    = StorageService.getItem a key' g
  ∧ StorageService.hasItem a key' (StorageService.removeItem a key g)
    = StorageService.hasItem a key' g.
Proof.
  intros Hne. unfold StorageService.getItem, StorageService.hasItem.
  rewrite storage_setItem_eq, storage_removeItem_eq.
  destruct (StorageService.storage a g) as [s|]; simpl; [| done].
  by rewrite lookup_insert_ne, lookup_delete_ne.
Qed.

Lemma storage_other_key_witness :
  "a" ≠ "b"
  ∧ LocalStorageService.getItem "b"
      (LocalStorageService.setItem "a" (JNum 1)
         (LocalStorageService.setItem "b" (JStr "x") page))
    = LocalStorageService.getItem "b" (LocalStorageService.setItem "b" (JStr "x") page).
Proof.
  split; [done |].
  apply (storage_other_key LocalArea "a" "b" (JNum 1)
           (LocalStorageService.setItem "b" (JStr "x") page)).
  done.
Defined.

(** X4 (independent stores): the two storage areas and the cookies do not
    share state.  A write, a removal or a clearing in one area leaves the
    other area and the cookies as they were, and writing or removing a
    cookie leaves both areas as they were. *)
Theorem stores_independent (a b : Area) (key : string) (v : json)
    (name : string) (value : json) (options : CookieOptions) (g : Global) :
  a ≠ b →
  (StorageService.storage b (StorageService.setItem a key v g)
   = StorageService.storage b g
   ∧ StorageService.storage b (StorageService.removeItem a key g)
     = StorageService.storage b g
   ∧ StorageService.storage b (StorageService.clear a g)
     = StorageService.storage b g)
  ∧ (document (StorageService.setItem a key v g) = document g
     ∧ document (StorageService.removeItem a key g) = document g
     ∧ document (StorageService.clear a g) = document g)
  ∧ (window (setCookie name value options g) = window g
     ∧ window (removeCookie name options g) = window g).
Proof.
  intros Hab.
  unfold StorageService.setItem, StorageService.removeItem, StorageService.clear.
  destruct (StorageService.storage a g) as [s|];
    rewrite ?storage_update_other, ?document_update by done;
    unfold removeCookie; by rewrite !window_setCookie.
Qed.

Lemma stores_independent_witness :
  LocalArea ≠ SessionArea
  ∧ StorageService.storage SessionArea (LocalStorageService.setItem "k" (JNum 1) page)
    = StorageService.storage SessionArea page
  ∧ document (LocalStorageService.setItem "k" (JNum 1) page) = document page
  ∧ window (setCookie "k" (JNum 1) no_options page) = window page.
Proof.
  split; [done |].
  pose proof (stores_independent LocalArea SessionArea "k" (JNum 1) "k" (JNum 1)
                no_options page) as H.
  destruct H as ((H1 & _) & (H2 & _) & (H3 & _)); done.
Defined.

(** X5 (storage clear): after [clear] the area is empty to every reading
    method: no key, length 0, no item; browser or not. *)
Theorem storage_after_clear (a : Area) (g : Global) :
  StorageService.getAllKeys a (StorageService.clear a g) = []
  ∧ StorageService.getLength a (StorageService.clear a g) = 0
  ∧ (∀ key, StorageService.getItem a key (StorageService.clear a g) = JNull)
  ∧ (∀ key, StorageService.hasItem a key (StorageService.clear a g) = false).
Proof.
  unfold StorageService.getAllKeys, StorageService.getLength,
    StorageService.getItem, StorageService.hasItem.
  destruct (StorageService.storage a g) as [s|] eqn:Hs.
  - rewrite (storage_clear _ _ _ Hs).
    rewrite map_to_list_empty, map_size_empty. by setoid_rewrite lookup_empty.
  - unfold StorageService.clear. by rewrite Hs, Hs.
Qed.




(** X8 (storage, removing what is not there): [removeItem] of a key that
    is not stored changes nothing. *)
Theorem storage_remove_absent (a : Area) (key : string) (g : Global) :
  StorageService.hasItem a key g = false →
  StorageService.removeItem a key g = g.
Proof.
  unfold StorageService.hasItem, StorageService.removeItem.
  destruct (StorageService.storage a g) as [s|] eqn:Hs; [| done].
  destruct (s !! key) eqn:Hk; [done |]. intros _.
  rewrite delete_id by done. by apply update_same.
Qed.

Lemma storage_remove_absent_witness :
  StorageService.hasItem LocalArea "k" page_with_text = true
  ∧ StorageService.hasItem LocalArea "other" page_with_text = false
  ∧ LocalStorageService.removeItem "other" page_with_text = page_with_text.
Proof.
  split; [reflexivity |]. split; [reflexivity |].
  apply (storage_remove_absent LocalArea "other" page_with_text). reflexivity.
Defined.

(** X9 (absent cookie): when the jar holds no cookie of the name,
    [getCookie] returns [null] and [hasCookie] answers [false]. *)
Theorem getCookie_absent (name : string) (g : Global) :
  cookies_well_formed g = true →
  (∀ d, document g = Some d → lookup (encodeURIComponent name) (cookie d) = None) →
  getCookie name g = JNull ∧ hasCookie name g = false.
Proof.
  intros Hj Habsent.
  assert (getCookie name g = JNull) as Hget; [| by unfold hasCookie; rewrite Hget].
  destruct (CookieService.isBrowser g) eqn:Hb.
  - apply isBrowser_true in Hb as (w & d & Hw & Hd).
    unfold cookies_well_formed in Hj. rewrite Hd in Hj.
    rewrite (getCookie_lookup _ _ _ _ Hw Hd Hj), (Habsent _ Hd).
    by destruct (truthy name).
  - by apply cookie_no_browser.
Qed.

Lemma getCookie_absent_witness :
  cookies_well_formed page_with_text = true
  ∧ getCookie "token" page_with_text = JNull
  ∧ hasCookie "token" page_with_text = false.
Proof.
  split; [reflexivity |].
  apply (getCookie_absent "token" page_with_text); [reflexivity |].
  intros d [= <-]. reflexivity.
Defined.



(** X11 (other cookies): writing or removing a cookie, with any options,
    does not change what [getCookie] returns for another name. *)
Theorem getCookie_other_name (name name' : string) (value : json)
    (options : CookieOptions) (g : Global) :
  cookies_well_formed g = true → name ≠ name' →
  getCookie name' (setCookie name value options g) = getCookie name' g
  ∧ getCookie name' (removeCookie name options g) = getCookie name' g.
Proof.
  intros Hj Hne.
  assert (∀ value options,
            getCookie name' (setCookie name value options g) = getCookie name' g)
    as Hset; [| split; [apply Hset | apply Hset]].
  clear value options. intros value options.
  destruct (CookieService.isBrowser g) eqn:Hb.
  - apply isBrowser_true in Hb as (w & d & Hw & Hd).
    pose proof (cookies_well_formed_setCookie name value options g Hj) as Hj'.
    destruct (setCookie_jar name value options g w d Hw Hd) as (j' & Hg' & Hcases).
    rewrite Hg' in *. unfold cookies_well_formed in Hj, Hj'.
    rewrite Hd in Hj. simpl in Hj'.
    erewrite getCookie_lookup; [| reflexivity | reflexivity | exact Hj'].
    rewrite (getCookie_lookup _ _ _ _ Hw Hd Hj). simpl cookie.
    assert (encodeURIComponent name' ≠ encodeURIComponent name) as Hne'
      by (by intros ?%encode_inj).
    destruct Hcases as [[_ ->] | [-> | ->]];
      by rewrite ?lookup_evict_ne, ?lookup_store_ne.
  - destruct (cookie_no_browser g Hb) as (_ & _ & _ & Hset & _). by rewrite Hset.
Qed.

Lemma getCookie_other_name_witness :
  cookies_well_formed page_with_text = true ∧ "other" ≠ "k"
  ∧ getCookie "k" (setCookie "other" (JNum 2) no_options page_with_text)
    = getCookie "k" page_with_text
  ∧ getCookie "k" (removeCookie "other" no_options page_with_text)
    = getCookie "k" page_with_text.
Proof.
  split; [reflexivity |]. split; [done |].
  apply (getCookie_other_name "other" "k" (JNum 2) no_options page_with_text);
    [reflexivity | done].
Defined.

(** *** Percent-encoded texts *)

Lemma decode_truthy (s t : string) :
  decodeURIComponent s = Some t → truthy t = truthy s.
Proof.
  destruct s as [|c r]; simpl; [by intros [= <-] |].
  destruct (Ascii.eqb c "%").
  - destruct r as [|h [|l r1]]; [done | done |].
    destruct (hex_pair h l) as [b|]; [| done].
    destruct (b <? 128)%N.
    + destruct (decodeURIComponent r1); simpl; [by intros [= <-] | done].
    + destruct (_ || _); [| done].
      destruct r1 as [|p [|h' [|l' r2]]]; try done.
      destruct (Ascii.eqb p "%"); [| done].
      destruct (hex_pair h' l') as [b'|]; [| done].
      destruct (_ && _); [| done].
      destruct (decodeURIComponent r2); simpl; [by intros [= <-] | done].
  - destruct (decodeURIComponent r); simpl; [by intros [= <-] | done].
Qed.

Lemma canonical_spec (s : string) :
  canonical s = true → ∃ t, s = encodeURIComponent t.
Proof.
  unfold canonical. destruct (decodeURIComponent s) as [t|]; [| done].
  intros H%String.eqb_eq. by exists t.
Qed.

Lemma canonical_encode (t : string) : canonical (encodeURIComponent t) = true.
Proof. unfold canonical. by rewrite decode_encode, String.eqb_refl. Qed.

Lemma hex_not_percent (h : ascii) (n : N) :
  hex_value h = Some n → Ascii.eqb h "%" = false.
Proof. each_ascii h; by vm_compute. Qed.

(** A malformed escape makes [decodeURIComponent] throw. *)
Lemma bad_escape_decode (s : string) :
  bad_escape s = true → decodeURIComponent s = None.
Proof.
  remember (String.length s) as n eqn:Hn.
  revert s Hn. induction (lt_wf n) as [n _ IH]. intros s -> Hbad.
  destruct s as [|c r]; [done |].
  simpl in Hbad. simpl decodeURIComponent.
  destruct (Ascii.eqb c "%"); simpl in Hbad.
  - destruct r as [|h [|l r1]]; [done | done |].
    unfold two_hex in Hbad.
    destruct (hex_pair h l) as [b|] eqn:Hb; [| done].
    simpl in Hbad. unfold hex_pair in Hb.
    destruct (hex_value h) as [x|] eqn:Hh; [| done].
    destruct (hex_value l) as [y|] eqn:Hl; [| done].
    rewrite (hex_not_percent _ _ Hh), (hex_not_percent _ _ Hl) in Hbad.
    simpl in Hbad.
    destruct (b <? 128)%N.
    + rewrite (IH (String.length r1)) with (s := r1); [done | simpl; lia | done | done].
    + destruct (_ || _); [| done].
      destruct r1 as [|p [|h' [|l' r2]]]; try done.
      simpl in Hbad.
      destruct (Ascii.eqb p "%"); [| done].
      simpl in Hbad. unfold two_hex in Hbad.
      destruct (hex_pair h' l') as [b'|] eqn:Hb'; [| done].
      simpl in Hbad. unfold hex_pair in Hb'.
      destruct (hex_value h') as [x'|] eqn:Hh'; [| done].
      destruct (hex_value l') as [y'|] eqn:Hl'; [| done].
      rewrite (hex_not_percent _ _ Hh'), (hex_not_percent _ _ Hl') in Hbad.
      simpl in Hbad.
      destruct (_ && _); [| done].
      rewrite (IH (String.length r2)) with (s := r2); [done | simpl; lia | done | done].
  - rewrite (IH (String.length r)) with (s := r); [done | simpl; lia | done | done].
Qed.

(** *** Jars written by the service *)

Lemma existsb_eqb_In (x : string) (l : list string) :
  existsb (String.eqb x) l = true ↔ In x l.
Proof.
  rewrite existsb_exists. split.
  - by intros (y & Hy & ->%String.eqb_eq).
  - intros Hx. exists x. by rewrite String.eqb_refl.
Qed.

Lemma names_store x n v (j : jar) :
  existsb (String.eqb x) (map fst (store n v j))
  = String.eqb x n || existsb (String.eqb x) (map fst j).
Proof.
  induction j as [|[n' w] j IH]; simpl; [done |].
  destruct (String.eqb_spec n n') as [-> | Hne]; simpl.
  - by destruct (String.eqb x n').
  - rewrite IH. by destruct (String.eqb x n'), (String.eqb x n).
Qed.

Lemma distinct_store n v (j : jar) :
  distinct (map fst j) = true → distinct (map fst (store n v j)) = true.
Proof.
  induction j as [|[n' w] j IH]; simpl; [done |].
  intros [Hn' Hj]%andb_true_iff.
  destruct (String.eqb_spec n n') as [-> | Hne]; simpl.
  - by rewrite Hn', Hj.
  - rewrite names_store, IH by done.
    destruct (String.eqb_spec n' n); [done |]. simpl. by rewrite Hn'.
Qed.

Lemma names_filter x (p : string * string → bool) (j : jar) :
  existsb (String.eqb x) (map fst j) = false →
  existsb (String.eqb x) (map fst (List.filter p j)) = false.
Proof.
  induction j as [|c j IH]; simpl; [done |].
  intros [Hc Hj]%orb_false_iff. destruct (p c); simpl; [rewrite Hc |]; auto.
Qed.

Lemma distinct_filter (p : string * string → bool) (j : jar) :
  distinct (map fst j) = true → distinct (map fst (List.filter p j)) = true.
Proof.
  induction j as [|c j IH]; simpl; [done |].
  intros [Hc Hj]%andb_true_iff. destruct (p c); simpl; [| auto].
  rewrite IH by done. apply negb_true_iff in Hc. by rewrite names_filter.
Qed.

Lemma forallb_store (p : string * string → bool) n v (j : jar) :
  p (n, v) = true → List.forallb p j = true → List.forallb p (store n v j) = true.
Proof.
  intros Hp. induction j as [|[n' w] j IH]; simpl; [by rewrite Hp |].
  intros [Hc Hj]%andb_true_iff.
  destruct (String.eqb n n'); simpl; [by rewrite Hp | by rewrite Hc, IH].
Qed.

Lemma forallb_filter (p q : string * string → bool) (j : jar) :
  List.forallb p j = true → List.forallb p (List.filter q j) = true.
Proof.
  induction j as [|c j IH]; simpl; [done |].
  intros [Hc Hj]%andb_true_iff. destruct (q c); simpl; [rewrite Hc |]; auto.
Qed.

Lemma written_store k s (j : jar) :
  written j = true →
  written (store (encodeURIComponent k) (encodeURIComponent s) j) = true.
Proof.
  unfold written. intros [Hc Hd]%andb_true_iff.
  rewrite forallb_store, distinct_store; try done.
  simpl. by rewrite !canonical_encode.
Qed.

Lemma written_filter (p : string * string → bool) (j : jar) :
  written j = true → written (List.filter p j) = true.
Proof.
  unfold written. intros [Hc Hd]%andb_true_iff.
  by rewrite forallb_filter, distinct_filter.
Qed.

Lemma written_well_formed (j : jar) : written j = true → well_formed j = true.
Proof.
  unfold written, well_formed. intros [Hc _]%andb_true_iff.
  induction j as [|[n v] j IH]; [done |]. simpl in *.
  apply andb_true_iff in Hc as [[Hn Hv]%andb_true_iff Hj].
  apply canonical_spec in Hn as [k ->]. apply canonical_spec in Hv as [s ->].
  by rewrite entry_ok_encoded, IH.
Qed.

Lemma cookies_written_well_formed (g : Global) :
  cookies_written g = true → cookies_well_formed g = true.
Proof.
  unfold cookies_written, cookies_well_formed.
  destruct (document g); [apply written_well_formed | done].
Qed.

Lemma cookies_written_setCookie name value options (g : Global) :
  cookies_written g = true → cookies_written (setCookie name value options g) = true.
Proof.
  intros Hj. destruct (CookieService.isBrowser g) eqn:Hb.
  - apply isBrowser_true in Hb as (w & d & Hw & Hd).
    destruct (setCookie_jar name value options g w d Hw Hd) as (j' & -> & Hcases).
    unfold cookies_written in *. rewrite Hd in Hj. simpl.
    destruct Hcases as [[_ ->] | [-> | ->]];
      [done | by apply written_filter | by apply written_store].
  - destruct (cookie_no_browser g Hb) as (_ & _ & _ & Hset & _). by rewrite Hset.
Qed.

Lemma fold_removeCookie_invariant (P : Global → Prop) (names : list string)
    (g : Global) :
  (∀ name g, P g → P (removeCookie name no_options g)) →
  P g → P (fold_left (λ g name, removeCookie name no_options g) names g).
Proof.
  intros Hstep. revert g. induction names as [|n names IH]; intros g Hg; [done |].
  simpl. apply IH, Hstep, Hg.
Qed.

Lemma cookies_written_clearAllCookies (g : Global) :
  cookies_written g = true → cookies_written (clearAllCookies g) = true.
Proof.
  intros Hj. unfold clearAllCookies. destruct (CookieService.isBrowser g); [| done].
  apply (fold_removeCookie_invariant (λ g, cookies_written g = true)); [| done].
  intros name g'. apply cookies_written_setCookie.
Qed.



(** *** The parse loop on a written jar *)

Lemma collect_render_encoded (k s : string) (rest : list string)
    (m : gmap string string) :
  collect (render (encodeURIComponent k, encodeURIComponent s) :: rest) m
  = collect rest (if truthy k && truthy s then setProperty k s m else m).
Proof.
  rewrite collect_cons. unfold render. simpl fst; simpl snd.
  rewrite truthy_encode. destruct (truthy k) eqn:Hk.
  - rewrite trim_pair.
    change (?a +:+ "=" +:+ ?b) with (a +:+ String "=" b).
    rewrite split_append, split_no_sep by (by apply encode_no).
    rewrite !truthy_encode, Hk, !decode_encode. simpl.
    by destruct (truthy s).
  - rewrite trim_encode, split_no_sep by (by apply encode_no). done.
Qed.

Lemma existsb_lookup n (j : jar) :
  existsb (String.eqb n) (map fst j) = false → lookup n j = None.
Proof.
  induction j as [|[n' v] j IH]; simpl; [done |].
  intros [Hn Hj]%orb_false_iff. rewrite Hn. auto.
Qed.

Lemma setProperty_lookup_ne (k k' v : string) (m : gmap string string) :
  k ≠ k' → setProperty k' v m !! k = m !! k.
Proof.
  intros Hne. unfold setProperty. destruct (String.eqb k' "__proto__"); [done |].
  by rewrite lookup_insert_ne.
Qed.

Lemma setProperty_lookup_eq (k v : string) (m : gmap string string) :
  k ≠ "__proto__" → setProperty k v m !! k = Some v.
Proof.
  intros Hne. unfold setProperty.
  destruct (String.eqb_spec k "__proto__"); [done |]. by rewrite lookup_insert_eq.
Qed.

Lemma collect_written (key : string) (j : jar) (m : gmap string string) :
  truthy key = true → key ≠ "__proto__" → written j = true →
  ∃ m', collect (map render j) m = Some m'
        ∧ m' !! key
          = match lookup (encodeURIComponent key) j with
            | Some raw => if truthy raw then decodeURIComponent raw else m !! key
            | None => m !! key
            end.
Proof.
  intros Hkey Hproto. revert m.
  induction j as [|[n v] j IH]; intros m Hj; [by exists m |].
  unfold written in Hj. simpl in Hj.
  apply andb_true_iff in Hj as [[[Hn Hv]%andb_true_iff Hc]%andb_true_iff
                                 [Hfresh Hd]%andb_true_iff].
  apply canonical_spec in Hn as [k ->]. apply canonical_spec in Hv as [s ->].
  apply negb_true_iff in Hfresh.
  simpl map. rewrite collect_render_encoded.
  destruct (IH (if truthy k && truthy s then setProperty k s m else m))
    as (m' & Hm' & Hlook); [unfold written; by rewrite Hc, Hd |].
  exists m'. split; [done |]. rewrite Hlook. simpl lookup.
  destruct (String.eqb_spec (encodeURIComponent key) (encodeURIComponent k))
    as [Heq | Hne].
  - apply encode_inj in Heq as <-.
    rewrite (existsb_lookup _ _ Hfresh), Hkey, truthy_encode. simpl.
    destruct (truthy s); [| done].
    by rewrite setProperty_lookup_eq, decode_encode.
  - assert (key ≠ k) by (by intros ->).
    assert ((if truthy k && truthy s then setProperty k s m else m) !! key = m !! key)
      as ->; [| done].
    destruct (truthy k && truthy s); [by apply setProperty_lookup_ne | done].
Qed.

(** The parse loop makes no property of an empty name or with an empty
    value, and none named [__proto__]. *)
Lemma collect_keys (l : list string) (m m' : gmap string string) (k : string) :
  collect l m = Some m' →
  m' !! k = m !! k
  ∨ (truthy k = true ∧ k ≠ "__proto__" ∧ ∃ v, m' !! k = Some v ∧ truthy v = true).
Proof.
  revert m. induction l as [|x l IH]; intros m; [intros [= ->]; by left |].
  rewrite collect_cons.
  destruct (split "=" (trim x)) as [|name [|value parts]]; try apply IH.
  destruct (truthy name && truthy value) eqn:Ht; [| apply IH].
  apply andb_true_iff in Ht as [Htn Htv].
  destruct (decodeURIComponent name) as [k0|] eqn:Hk0; [| done]. simpl.
  destruct (decodeURIComponent value) as [v0|] eqn:Hv0; [| done]. simpl.
  intros [Hsame | Hset]%IH; [| by right].
  rewrite Hsame. unfold setProperty.
  destruct (String.eqb_spec k0 "__proto__") as [-> | Hp]; [by left |].
  destruct (decide (k = k0)) as [-> | Hne].
  - right. apply decode_truthy in Hk0, Hv0.
    split; [congruence |]. split; [done |].
    exists v0. rewrite lookup_insert_eq. split; [done | congruence].
  - left. by rewrite lookup_insert_ne.
Qed.

(** The listing of a written jar, key by key. *)
Lemma getAllCookies_lookup (key : string) (g : Global) (w : Window)
    (d : Document) :
  window g = Some w → document g = Some d → written (cookie d) = true →
  key ≠ "" → key ≠ "__proto__" →
  getAllCookies g !! key
  = match lookup (encodeURIComponent key) (cookie d) with
    | Some raw => if truthy raw then decodeURIComponent raw else None
    | None => None
    end.
Proof.
  intros Hw Hd Hj Hkey Hproto. unfold getAllCookies. rewrite Hw, Hd.
  rewrite collect_read by (by apply written_well_formed).
  assert (Ht : truthy key = true) by (by destruct key).
  destruct (collect_written key (cookie d) ∅ Ht Hproto Hj) as (m' & -> & ->).
  by rewrite lookup_empty.
Qed.

Lemma collect_proper (l : list string) (m' : gmap string string) :
  collect l ∅ = Some m' → proper_listing m'.
Proof.
  intros Hm'. split; [| split].
  - destruct (collect_keys l ∅ m' "" Hm') as [-> | (? & _)]; done.
  - destruct (collect_keys l ∅ m' "__proto__" Hm') as [-> | (_ & ? & _)]; done.
  - intros k Hk.
    destruct (collect_keys l ∅ m' k Hm') as [Hsame | (_ & _ & v & Hv & Htv)].
    + by rewrite Hsame, lookup_empty in Hk.
    + rewrite Hk in Hv. by injection Hv as <-.
Qed.

Lemma proper_empty : proper_listing ∅.
Proof. split; [done |]. split; [done |]. intros k. by rewrite lookup_empty. Qed.

Lemma getAllCookies_proper (g : Global) : proper_listing (getAllCookies g).
Proof.
  unfold getAllCookies.
  destruct (window g); [| apply proper_empty].
  destruct (document g); [| apply proper_empty].
  destruct (collect _ _) eqn:Hc; [by eapply collect_proper | apply proper_empty].
Qed.

(** X13 (listing a written jar): on a jar written by the service,
    [getAllCookies] maps a name to the decoded value of the cookie of that
    name, and has no entry for a name without a cookie or with a cookie
    of empty value, nor for the empty name or the name [__proto__]. *)
Theorem getAllCookies_written (key : string) (g : Global) (w : Window)
    (d : Document) :
  window g = Some w → document g = Some d → written (cookie d) = true →
  getAllCookies g !! key
  = if truthy key && negb (String.eqb key "__proto__")
    then match lookup (encodeURIComponent key) (cookie d) with
         | Some raw => if truthy raw then decodeURIComponent raw else None
         | None => None
         end
    else None.
Proof.
  intros Hw Hd Hj.
  destruct (getAllCookies_proper g) as (Hempty & Hproto & _).
  destruct key as [|a key]; [done |]. simpl truthy.
  destruct (String.eqb_spec (String a key) "__proto__") as [-> | Hne]; [done |].
  by apply getAllCookies_lookup with w.
Qed.

Lemma getAllCookies_written_witness :
  let g := setCookie "b" (JStr "") no_options
             (setCookie "a b" (JStr "x;y") no_options page) in
  getAllCookies g !! "a b" = Some "x;y" ∧ getAllCookies g !! "b" = None.
Proof.
  split.
  - by rewrite (getAllCookies_written "a b" _ (MkWindow (Some ∅) (Some ∅))
                  (MkDocument [("a%20b", "x%3By"); ("b", "")])).
  - by rewrite (getAllCookies_written "b" _ (MkWindow (Some ∅) (Some ∅))
                  (MkDocument [("a%20b", "x%3By"); ("b", "")])).
Defined.

(** X14 (what a listing never holds): neither [parseCookiesFromHeader]
    nor [getAllCookies] ever returns an entry with an empty name or an
    empty value, or an entry named [__proto__]. *)
Theorem listings_proper (cookieHeader : option string) (g : Global) :
  proper_listing (parseCookiesFromHeader cookieHeader)
  ∧ proper_listing (getAllCookies g).
Proof.
  split; [| apply getAllCookies_proper].
  unfold parseCookiesFromHeader. destruct (given cookieHeader) as [h|];
    [| apply proper_empty].
  destruct (collect _ _) eqn:Hc; [by eapply collect_proper | apply proper_empty].
Qed.

(** X15 (the two readers agree on a written jar): on a jar written by the
    service, what [getAllCookies] lists under a name is the text
    [getCookie] parses, and a name it does not list has no cookie or a
    cookie of empty value. *)
Theorem getCookie_getAllCookies (key : string) (g : Global) :
  cookies_written g = true → key ≠ "__proto__" →
  match getAllCookies g !! key with
  | Some text => getCookie key g = parseOrRaw text
  | None => getCookie key g = JNull ∨ getCookie key g = JStr ""
  end.
Proof.
  intros Hj Hproto. destruct (CookieService.isBrowser g) eqn:Hb.
  - apply isBrowser_true in Hb as (w & d & Hw & Hd).
    unfold cookies_written in Hj. rewrite Hd in Hj.
    rewrite (getCookie_lookup _ _ _ _ Hw Hd (written_well_formed _ Hj)).
    destruct key as [|a key].
    + destruct (getAllCookies_proper g) as (-> & _). by left.
    + rewrite (getAllCookies_lookup _ _ _ _ Hw Hd Hj) by done.
      simpl truthy. cbv iota. unfold decoded.
      destruct (lookup _ _) as [[|b raw]|]; simpl truthy; cbv iota.
      * by right.
      * destruct (decodeURIComponent (String b raw)); [done | by left].
      * by left.
  - destruct (cookie_no_browser g Hb) as (Hget & -> & _).
    rewrite lookup_empty. by left.
Qed.

Lemma getCookie_getAllCookies_witness :
  let g := setCookie "n" (JNum 7) no_options page in
  cookies_written g = true ∧ "n" ≠ "__proto__"
  ∧ getAllCookies g !! "n" = Some "7" ∧ getCookie "n" g = JNum 7.
Proof.
  split; [reflexivity |]. split; [done |]. split; [reflexivity |].
  pose proof (getCookie_getAllCookies "n" (setCookie "n" (JNum 7) no_options page)
                eq_refl ltac:(done)) as H.
  exact H.
Defined.



(** *** Malformed escapes *)

Lemma collect_bad (l : list string) (m : gmap string string)
    (seg name value : string) (more : list string) :
  In seg l → split "=" (trim seg) = name :: value :: more →
  truthy name = true → truthy value = true →
  bad_escape name || bad_escape value = true →
  collect l m = None.
Proof.
  intros Hin Hsplit Hn Hv Hbad. revert m.
  induction l as [|x l IH]; intros m; [done |].
  rewrite collect_cons. destruct Hin as [-> | Hin].
  - rewrite Hsplit, Hn, Hv. simpl andb. cbv iota.
    apply orb_true_iff in Hbad as [Hbad | Hbad].
    + by rewrite (bad_escape_decode _ Hbad).
    + rewrite (bad_escape_decode _ Hbad). by destruct (decodeURIComponent name).
  - destruct (split "=" (trim x)) as [|name' [|value' parts]]; try by apply IH.
    destruct (truthy name' && truthy value'); [| by apply IH].
    destruct (decodeURIComponent name'); [| done]. simpl.
    destruct (decodeURIComponent value'); [| done]. simpl. by apply IH.
Qed.

(** X17 (one malformed escape spoils the header): when one segment of
    the header has a name or a value with a [%] that two hexadecimal
    digits do not follow, [parseCookiesFromHeader] returns the empty
    object, whatever the other segments hold. *)
Theorem parse_malformed (header seg name value : string) (more : list string) :
  In seg (split ";" header) → split "=" (trim seg) = name :: value :: more →
  name ≠ "" → value ≠ "" →
  bad_escape name || bad_escape value = true →
  parseCookiesFromHeader (Some header) = ∅.
Proof.
  intros Hin Hsplit Hn Hv Hbad. unfold parseCookiesFromHeader.
  destruct (given (Some header)) as [h|] eqn:Hh; [| done].
  apply given_Some in Hh as [= <-].
  rewrite (collect_bad _ _ _ _ _ _ Hin Hsplit); try done.
  - by destruct name.
  - by destruct value.
Qed.

Lemma parse_malformed_witness :
  parseCookiesFromHeader (Some "a=1; b=100%") = ∅
  ∧ parseCookiesFromHeader (Some "a=1") = {["a" := "1"]}.
Proof.
  split; [| reflexivity].
  apply (parse_malformed "a=1; b=100%" " b=100%" "b" "100%" []);
    [right; left; reflexivity | reflexivity | done | done | reflexivity].
Defined.

(** X18 (a malformed cookie read by name): a cookie whose stored value
    has a malformed escape is in the jar, yet [getCookie] returns [null]
    for it and [hasCookie] answers [false]. *)
Theorem getCookie_malformed (key raw : string) (g : Global) (w : Window)
    (d : Document) :
  window g = Some w → document g = Some d → well_formed (cookie d) = true →
  lookup (encodeURIComponent key) (cookie d) = Some raw →
  bad_escape raw = true →
  getCookie key g = JNull ∧ hasCookie key g = false.
Proof.
  intros Hw Hd Hj Hraw Hbad.
  assert (getCookie key g = JNull) as Hget; [| by unfold hasCookie; rewrite Hget].
  rewrite (getCookie_lookup _ _ _ _ Hw Hd Hj), Hraw.
  destruct (truthy key); [| done].
  unfold decoded. by rewrite (bad_escape_decode _ Hbad).
Qed.

Lemma getCookie_malformed_witness :
  let g := MkGlobal (Some (MkWindow None None))
             (Some (MkDocument [("a", "1"); ("b", "100%")])) 0 in
  getCookie "b" g = JNull ∧ hasCookie "b" g = false ∧ getCookie "a" g = JNum 1.
Proof.
  split; [| split; [| reflexivity]];
    by apply (getCookie_malformed "b" "100%" _ (MkWindow None None)
                (MkDocument [("a", "1"); ("b", "100%")])).
Defined.

(** *** Enumerating the listing *)

Lemma occurrences_trim (l l' : list string) :
  map trim l = map trim l' → occurrences l = occurrences l'.
Proof.
  revert l'. induction l as [|x l IH]; intros [|x' l']; simpl; try done.
  intros [= Hx Hl]. rewrite Hx, (IH l' Hl). done.
Qed.

Lemma occurrences_read (j : jar) :
  well_formed j = true → occurrences (split ";" (read j)) = occurrences (map render j).
Proof.
  intros Hj. rewrite (split_read _ Hj). destruct j as [|c j]; [done |].
  apply occurrences_trim. by rewrite trim_segments, map_trim_render.
Qed.

Lemma occurrences_render_encoded (k s : string) (rest : list string) :
  occurrences (render (encodeURIComponent k, encodeURIComponent s) :: rest)
  = if truthy k && truthy s
    then ps ← occurrences rest; Some ((k, s) :: ps)
    else occurrences rest.
Proof.
  cbn [occurrences]. unfold render. simpl fst; simpl snd.
  rewrite truthy_encode. destruct (truthy k) eqn:Hk.
  - rewrite trim_pair.
    change (?a +:+ "=" +:+ ?b) with (a +:+ String "=" b).
    rewrite split_append, split_no_sep by (by apply encode_no).
    rewrite !truthy_encode, Hk, !decode_encode. simpl.
    by destruct (truthy s).
  - rewrite trim_encode, split_no_sep by (by apply encode_no). done.
Qed.

(** The names the parse loop assigns to, for a written jar. *)
Lemma occurrences_written (j : jar) :
  written j = true →
  ∃ ps, occurrences (map render j) = Some ps
        ∧ ∀ k, In k (map fst ps)
               ↔ ∃ v, In (encodeURIComponent k, v) j
                      ∧ truthy k = true ∧ truthy v = true.
Proof.
  induction j as [|[n v] j IH]; intros Hj.
  - exists []. split; [done |]. intros k. split; [done | by intros (? & [] & _)].
  - unfold written in Hj. simpl in Hj.
    apply andb_true_iff in Hj as [[[Hn Hv]%andb_true_iff Hc]%andb_true_iff
                                   [Hfresh Hd]%andb_true_iff].
    apply canonical_spec in Hn as [k0 ->]. apply canonical_spec in Hv as [s0 ->].
    destruct IH as (ps & Hps & Hin); [unfold written; by rewrite Hc, Hd |].
    simpl map. rewrite occurrences_render_encoded, Hps. simpl.
    destruct (truthy k0 && truthy s0) eqn:Ht.
    + apply andb_true_iff in Ht as [Htk Hts].
      exists ((k0, s0) :: ps). split; [done |]. intros k. simpl. rewrite Hin.
      split.
      * intros [<- | (v & Hv & Hk & Htv)].
        -- exists (encodeURIComponent s0). rewrite truthy_encode. auto.
        -- exists v. auto.
      * intros (v & [[= Hk <-] | Hv] & Htk' & Htv).
        -- left. by apply encode_inj.
        -- right. by exists v.
    + exists ps. split; [done |]. intros k. rewrite Hin. split.
      * intros (v & Hv & Hk & Htv). exists v. simpl. auto.
      * intros (v & [[= Hk <-] | Hv] & Htk' & Htv).
        -- apply encode_inj in Hk as <-. rewrite truthy_encode in Htv.
           by rewrite Htk', Htv in Ht.
        -- by exists v.
Qed.

Lemma In_created (k : string) (ps : list (string * string)) (keys : list string) :
  In k (JsObject.created ps keys)
  ↔ In k keys ∨ (k ≠ "__proto__" ∧ In k (map fst ps)).
Proof.
  revert keys. induction ps as [|[k' v] ps IH]; intros keys; simpl.
  - split; [auto | by intros [? | [_ []]]].
  - destruct (String.eqb_spec k' "__proto__") as [-> | Hp]; simpl.
    + rewrite IH. split; [| intros [? | [? [<- | ?]]]; by auto].
      intros [? | [? ?]]; auto.
    + destruct (existsb (String.eqb k') keys) eqn:Hk'.
      * apply existsb_eqb_In in Hk'. rewrite IH.
        split; [intros [? | [? ?]]; by auto |].
        intros [? | [? [<- | ?]]]; auto.
      * rewrite IH, in_app_iff. simpl.
        split; [intros [[? | [<- | []]] | [? ?]]; by auto |].
        intros [? | [? [<- | ?]]]; auto.
Qed.

Lemma In_insert_index (x : N * string) i k (l : list (N * string)) :
  In x (JsObject.insert_index i k l) ↔ x = (i, k) ∨ In x l.
Proof.
  induction l as [|[i' k'] l IH]; simpl; [by intuition |].
  destruct (i <=? i')%N; simpl; [by intuition |].
  rewrite IH. by intuition.
Qed.

Lemma In_indices (k : string) (keys : list string) :
  In k (map snd (JsObject.indices keys)) ↔ In k keys ∧ JsObject.is_index k = true.
Proof.
  unfold JsObject.is_index. rewrite in_map_iff.
  induction keys as [|k' keys IH]; simpl.
  - split; [by intros (? & _ & []) | by intros [[] _]].
  - destruct (JsObject.array_index k') as [i|] eqn:Hi.
    + split.
      * intros ([i0 k0] & <- & [[= -> ->] | Hin]%In_insert_index); simpl.
        -- rewrite Hi. auto.
        -- destruct IH as [IH _]. destruct IH as [? ?]; [by exists (i0, k0) | auto].
      * intros [[<- | Hin] Hk].
        -- exists (i, k'). split; [done |]. apply In_insert_index. auto.
        -- destruct IH as [_ IH]. destruct IH as ([i0 k0] & <- & ?); [done |].
           exists (i0, k0). split; [done |]. apply In_insert_index. auto.
    + rewrite IH. split; [intros [? ?]; by auto |].
      intros [[<- | ?] Hk]; [by rewrite Hi in Hk | auto].
Qed.

(** [for ... in] visits every key. *)
Lemma In_for_in (k : string) (keys : list string) :
  In k (JsObject.for_in keys) ↔ In k keys.
Proof.
  unfold JsObject.for_in. rewrite in_app_iff, In_indices, filter_In.
  destruct (JsObject.is_index k); simpl; by intuition.
Qed.

(** *** [clearAllCookies] *)

Lemma fold_removeCookie (names : list string) (g : Global) w d :
  window g = Some w → document g = Some d → 0 <= now g →
  Forall (λ n, truthy n = true) names →
  fold_left (λ g name, removeCookie name no_options g) names g
  = MkGlobal (Some w)
      (Some (MkDocument
               (fold_left (λ j n, evict (encodeURIComponent n) j) names (cookie d))))
      (now g).
Proof.
  intros Hw Hd Hnow Hnames. revert g d Hw Hd Hnow.
  induction Hnames as [|n names Hn _ IH]; intros g d Hw Hd Hnow; simpl.
  - destruct g as [? ? ?], d. simpl in *. by subst.
  - rewrite (removeCookie_default _ _ _ _ Hw Hd), Hn. simpl negb. cbv iota.
    destruct (Z.leb_spec 0 (now g)); [| lia].
    by rewrite (IH _ (MkDocument (evict (encodeURIComponent n) (cookie d)))).
Qed.

Lemma filter_filter (p q : string * string → bool) (j : jar) :
  List.filter p (List.filter q j) = List.filter (λ c, q c && p c) j.
Proof.
  induction j as [|c j IH]; simpl; [done |].
  destruct (q c); simpl; [destruct (p c) |]; by rewrite IH.
Qed.

Lemma fold_evict (names : list string) (j : jar) :
  fold_left (λ j n, evict n j) names j
  = List.filter (λ c, negb (existsb (String.eqb c.1) names)) j.
Proof.
  revert j. induction names as [|n names IH]; intros j; simpl.
  - induction j as [|c j IHj]; simpl; by rewrite <- ?IHj.
  - rewrite IH. unfold evict. rewrite filter_filter.
    apply filter_ext. intros c. by destruct (String.eqb c.1 n).
Qed.

Lemma fold_evict_encoded (names : list string) (j : jar) :
  fold_left (λ j n, evict (encodeURIComponent n) j) names j
  = fold_left (λ j n, evict n j) (map encodeURIComponent names) j.
Proof.
  revert j. induction names as [|n names IH]; intros j; simpl; [done | apply IH].
Qed.

Lemma distinct_In (j : jar) (c c' : string * string) :
  distinct (map fst j) = true → In c j → In c' j → c.1 = c'.1 → c = c'.
Proof.
  induction j as [|x j IH]; simpl; [done |].
  intros [Hx Hj]%andb_true_iff. apply negb_true_iff in Hx.
  assert (∀ y, In y j → y.1 ≠ x.1) as Hfresh.
  { intros y Hy Heq.
    assert (existsb (String.eqb x.1) (map fst j) = true); [| congruence].
    apply existsb_eqb_In, in_map_iff. by exists y. }
  intros [<- | Hc] [<- | Hc'] Heq; try done.
  - by destruct (Hfresh _ Hc').
  - by destruct (Hfresh _ Hc).
  - by apply IH.
Qed.

Lemma encode_proto (k : string) :
  encodeURIComponent k = "__proto__" ↔ k = "__proto__".
Proof.
  split; [| by intros ->].
  change "__proto__" with (encodeURIComponent "__proto__") at 1. apply encode_inj.
Qed.

(** The cookies the loop of [clearAllCookies] removes from a written jar
    are those the listing of [getAllCookies] holds. *)
Lemma removed_listed (j : jar) (ps : list (string * string)) (c : string * string) :
  written j = true →
  (∀ k, In k (map fst ps)
        ↔ ∃ v, In (encodeURIComponent k, v) j ∧ truthy k = true ∧ truthy v = true) →
  In c j →
  existsb (String.eqb c.1)
    (map encodeURIComponent (JsObject.for_in (JsObject.created ps [])))
  = listed c.
Proof.
  intros Hj Hps Hc.
  assert (Hd : distinct (map fst j) = true)
    by (unfold written in Hj; by apply andb_true_iff in Hj as [_ ?]).
  assert (∃ k, c.1 = encodeURIComponent k) as [k Hk].
  { unfold written in Hj. apply andb_true_iff in Hj as [Hcan _].
    rewrite forallb_forall in Hcan. apply Hcan in Hc.
    apply andb_true_iff in Hc as [Hn _]. by apply canonical_spec. }
  apply eq_true_iff_eq. rewrite existsb_eqb_In, in_map_iff.
  unfold listed. rewrite !andb_true_iff, negb_true_iff. split.
  - intros (k' & Hk' & Hin). rewrite Hk in Hk'. apply encode_inj in Hk' as ->.
    apply In_for_in, In_created in Hin as [[] | [Hp (v & Hv & Htk & Htv)%Hps]].
    assert (c = (encodeURIComponent k, v)) as ->
      by (by apply (distinct_In j)).
    simpl. rewrite truthy_encode. split; [done |].
    apply String.eqb_neq. by rewrite encode_proto.
  - intros [[Htn Htv] Hp]. exists k. split; [done |].
    apply In_for_in, In_created. right.
    apply String.eqb_neq in Hp. rewrite Hk, encode_proto in Hp. split; [done |].
    apply Hps. exists c.2. rewrite <- Hk, <- surjective_pairing.
    rewrite Hk, truthy_encode in Htn. done.
Qed.

Lemma cookieNames_truthy (j : jar) (ps : list (string * string)) :
  (∀ k, In k (map fst ps)
        ↔ ∃ v, In (encodeURIComponent k, v) j ∧ truthy k = true ∧ truthy v = true) →
  Forall (λ n, truthy n = true) (JsObject.for_in (JsObject.created ps [])).
Proof.
  intros Hps. apply List.Forall_forall. intros k Hin.
  by apply In_for_in, In_created in Hin as [[] | [_ (v & _ & ? & _)%Hps]].
Qed.

Lemma collect_unlisted (j : jar) (m : gmap string string) :
  written j = true → List.forallb (λ c, negb (listed c)) j = true →
  collect (map render j) m = Some m.
Proof.
  induction j as [|[n v] j IH]; intros Hj Hun; [done |].
  unfold written in Hj. simpl in Hj, Hun.
  apply andb_true_iff in Hj as [[[Hn Hv]%andb_true_iff Hc]%andb_true_iff
                                 [Hfresh Hd]%andb_true_iff].
  apply andb_true_iff in Hun as [Hnv Hun].
  apply canonical_spec in Hn as [k ->]. apply canonical_spec in Hv as [s ->].
  simpl map. rewrite collect_render_encoded.
  assert ((if truthy k && truthy s then setProperty k s m else m) = m) as ->.
  { unfold listed in Hnv. simpl in Hnv. rewrite !truthy_encode in Hnv.
    destruct (truthy k && truthy s); [| done]. simpl in Hnv.
    apply negb_true_iff, negb_false_iff, String.eqb_eq, encode_proto in Hnv as ->.
    done. }
  apply IH; [unfold written; by rewrite Hc, Hd | done].
Qed.

Lemma forallb_filter_self (p : string * string → bool) (j : jar) :
  List.forallb p (List.filter p j) = true.
Proof.
  induction j as [|c j IH]; simpl; [done |].
  destruct (p c) eqn:Hp; simpl; [by rewrite Hp |]; done.
Qed.

(** The state [clearAllCookies] leaves from a written jar. *)
Lemma clearAllCookies_jar (g : Global) (w : Window) (d : Document) :
  window g = Some w → document g = Some d → written (cookie d) = true →
  0 <= now g →
  clearAllCookies g
  = MkGlobal (Some w)
      (Some (MkDocument (List.filter (λ c, negb (listed c)) (cookie d))))
      (now g).
Proof.
  intros Hw Hd Hj Hnow. unfold clearAllCookies, cookieNames, CookieService.isBrowser.
  rewrite Hw, Hd.
  rewrite occurrences_read by (by apply written_well_formed).
  destruct (occurrences_written _ Hj) as (ps & -> & Hps).
  rewrite (fold_removeCookie _ _ _ _ Hw Hd Hnow (cookieNames_truthy _ _ Hps)).
  rewrite fold_evict_encoded, fold_evict. do 3 f_equal.
  apply filter_ext_in. intros c Hc. by rewrite (removed_listed _ _ _ Hj Hps Hc).
Qed.



Lemma lookup_filter n v (p : string * string → bool) (j : jar) :
  lookup n j = Some v → p (n, v) = true → lookup n (List.filter p j) = Some v.
Proof.
  intros Hl Hp. induction j as [|[n' v'] j IH]; [done |]. simpl in *.
  destruct (String.eqb_spec n n') as [<- | Hne].
  - injection Hl as ->. rewrite Hp. simpl. by rewrite String.eqb_refl.
  - destruct (p (n', v')); simpl; [| auto].
    destruct (String.eqb_spec n n'); [done | auto].
Qed.



(** X21 (a malformed cookie in the jar): when one cookie of the jar has a
    name or a value with a malformed escape, [getAllCookies] returns the
    empty object and [clearAllCookies] removes nothing. *)
Theorem malformed_cookie (n v : string) (g : Global) (w : Window) (d : Document) :
  window g = Some w → document g = Some d → well_formed (cookie d) = true →
  In (n, v) (cookie d) → n ≠ "" → v ≠ "" → mem "=" v = false →
  bad_escape n || bad_escape v = true →
  getAllCookies g = ∅ ∧ clearAllCookies g = g.
Proof.
  intros Hw Hd Hj Hin Hn Hv Heq Hbad.
  assert (∀ m, collect (split ";" (read (cookie d))) m = None) as Hnone.
  { intros m. rewrite (collect_read _ _ Hj).
    assert (Hc : entry_ok (n, v) = true).
    { unfold well_formed in Hj. rewrite forallb_forall in Hj. by apply Hj. }
    apply (collect_bad _ _ (render (n, v)) n v []); try done.
    - apply in_map_iff. by exists (n, v).
    - rewrite (trim_render _ Hc). unfold render. simpl fst; simpl snd.
      assert (truthy n = true) as -> by (by destruct n).
      apply entry_ok_spec in Hc as (_ & _ & Hnn & _). simpl in Hnn.
      change (n +:+ "=" +:+ v) with (n +:+ String "=" v).
      by rewrite split_append, split_no_sep.
    - by destruct n.
    - by destruct v. }
  split.
  - unfold getAllCookies. by rewrite Hw, Hd, Hnone.
  - unfold clearAllCookies, cookieNames, CookieService.isBrowser. rewrite Hw, Hd.
    pose proof (Hnone ∅) as Hocc. rewrite collect_occurrences in Hocc.
    by destruct (occurrences _).
Qed.

Lemma malformed_cookie_witness :
  let g := MkGlobal (Some (MkWindow None None))
             (Some (MkDocument [("a", "1"); ("b", "100%")])) 0 in
  getAllCookies g = ∅ ∧ clearAllCookies g = g ∧ getCookie "a" g = JNum 1.
Proof.
  split; [| split; [| reflexivity]];
    apply (malformed_cookie "b" "100%" _ (MkWindow None None)
             (MkDocument [("a", "1"); ("b", "100%")]));
    try done; by right; left.
Defined.

Lemma first_occurrence_In (k : string) (ps : list (string * string)) :
  is_Some (first_occurrence k ps) ↔ In k (map fst ps).
Proof.
  induction ps as [|[k' v] ps IH]; simpl.
  - split; [by intros [? ?] | done].
  - destruct (String.eqb_spec k k') as [-> | Hne].
    + split; [auto | by eexists].
    + rewrite IH. split; [auto | by intros [? | ?]].
Qed.

Lemma assignments_proto (ps : list (string * string)) (m : gmap string string) :
  m !! "__proto__" = None →
  fold_left (λ m p, setProperty p.1 p.2 m) ps m !! "__proto__" = None.
Proof.
  revert m. induction ps as [|[k' v] ps IH]; intros m Hm; [done |]. simpl.
  apply IH. unfold setProperty.
  destruct (String.eqb_spec k' "__proto__"); [done |].
  by rewrite lookup_insert_ne.
Qed.

(** The loop of [clearAllCookies] visits exactly the names
    [getAllCookies] lists. *)
Lemma cookieNames_listing (g : Global) (k : string) :
  In k (cookieNames g) ↔ is_Some (getAllCookies g !! k).
Proof.
  unfold cookieNames, getAllCookies.
  destruct (window g); [| rewrite lookup_empty; split; [done | by intros [? ?]]].
  destruct (document g) as [d|];
    [| rewrite lookup_empty; split; [done | by intros [? ?]]].
  destruct (collect _ ∅) as [m|] eqn:Hm; rewrite collect_occurrences in Hm;
    destruct (occurrences _) as [ps|]; try done; simpl in Hm.
  - injection Hm as <-. rewrite In_for_in, In_created.
    destruct (decide (k = "__proto__")) as [-> | Hp].
    + rewrite assignments_proto by done.
      split; [by intros [[] | [? _]] | by intros [? ?]].
    + rewrite (lookup_assignments _ _ _ Hp), lookup_empty.
      unfold last_occurrence.
      assert (In k (map fst ps) ↔ is_Some (first_occurrence k (rev ps))) as ->.
      { by rewrite first_occurrence_In, map_rev, <- in_rev. }
      destruct (first_occurrence k (rev ps)); split; try done;
        try by intros [[] | [_ ?]].
      by right.
  - rewrite lookup_empty. split; [done | by intros [? ?]].
Qed.

(** *** The header builder *)

(** X22 (parsing a built header): parsed as a cookie header, the header
    [createSetCookieHeader] builds with default options always lists the
    directive as a cookie [Path] with the value [/], after the cookie
    itself, which is listed when its name and value are not empty. *)
Theorem header_parse (key : string) (value : json) (g : Global) :
  parseCookiesFromHeader (Some (createSetCookieHeader key value no_options g))
  = setProperty "Path" "/"
      (if truthy key && truthy (stringValue value)
       then setProperty key (stringValue value) ∅
       else ∅).
Proof.
  change (createSetCookieHeader key value no_options g)
    with ((encodeURIComponent key +:+ "=" +:+ encodeURIComponent (stringValue value))
            +:+ String ";" " Path=/").
  unfold parseCookiesFromHeader, given.
  assert (Hne : truthy ((encodeURIComponent key +:+ "="
                           +:+ encodeURIComponent (stringValue value))
                          +:+ String ";" " Path=/") = true).
  { destruct (encodeURIComponent key); reflexivity. }
  rewrite Hne, split_append by (by rewrite !mem_append, !encode_no).
  change (split ";" " Path=/") with [" Path=/"].
  rewrite collect_cons, trim_pair.
  change (?a +:+ "=" +:+ ?b) with (a +:+ String "=" b).
  rewrite split_append, split_no_sep by (by apply encode_no).
  rewrite !truthy_encode, !decode_encode.
  destruct (truthy key && truthy (stringValue value)); reflexivity.
Qed.

Lemma toLowerCase_append (a b : string) :
  toLowerCase (a +:+ b) = toLowerCase a +:+ toLowerCase b.
Proof. induction a as [|c a IH]; simpl; [done | by rewrite IH]. Qed.

Lemma suffix_cons (d : string) (l : list string) :
  fold_right (λ d acc, "; " +:+ d +:+ acc) "" (d :: l)
  = "; " +:+ d +:+ fold_right (λ d acc, "; " +:+ d +:+ acc) "" l.
Proof. reflexivity. Qed.

Lemma toLowerCase_suffix (l : list string) :
  toLowerCase (fold_right (λ d acc, "; " +:+ d +:+ acc) "" l)
  = fold_right (λ d acc, "; " +:+ d +:+ acc) "" (map toLowerCase l).
Proof.
  induction l as [|d l IH]; [done |].
  change (map toLowerCase (d :: l)) with (toLowerCase d :: map toLowerCase l).
  by rewrite !suffix_cons, !toLowerCase_append, IH.
Qed.

Lemma suffix_app (l1 l2 : list string) :
  fold_right (λ d acc, "; " +:+ d +:+ acc) "" (l1 ++ l2)
  = fold_right (λ d acc, "; " +:+ d +:+ acc) "" l1
    +:+ fold_right (λ d acc, "; " +:+ d +:+ acc) "" l2.
Proof.
  induction l1 as [|d l1 IH]; [done |].
  change ((d :: l1) ++ l2) with (d :: (l1 ++ l2)).
  by rewrite !suffix_cons, IH, !append_assoc.
Qed.

Lemma header_directives_lower (g : Global) (options : CookieOptions) :
  map toLowerCase (header_directives g options)
  = map toLowerCase (directives g options)
    ++ (if flag (httpOnly options) then ["httponly"] else []).
Proof.
  assert (∀ a a' b b' : list string, a = a' → b = b' → a ++ b = a' ++ b')
    as Happ by (by intros; subst).
  unfold header_directives, directives. rewrite !map_app, <- !app_assoc.
  repeat apply Happ.
  - by destruct (expiresDate g options).
  - by destruct (given (path options)).
  - by destruct (given (domain options)).
  - by destruct (flag (secure options)).
  - by destruct (sameSite options) as [[]|].
  - by destruct (flag (httpOnly options)).
Qed.

(** X23 (the header builder mirrors [setCookie]): for the same name,
    value and options, the header of [createSetCookieHeader] and the
    string [setCookie] assigns are equal up to the case of ASCII letters,
    but for the [HttpOnly] directive the header ends with when the option
    is set. *)
Theorem header_mirrors_cookieString (name : string) (value : json)
    (options : CookieOptions) (g : Global) :
  toLowerCase (createSetCookieHeader name value options g)
  = toLowerCase (cookieString g name value options)
    +:+ (if flag (httpOnly options) then "; httponly" else "").
Proof.
  rewrite createSetCookieHeader_directives, cookieString_directives, !join_suffix.
  rewrite !toLowerCase_append, !toLowerCase_suffix, header_directives_lower.
  rewrite suffix_app, append_assoc.
  by destruct (flag (httpOnly options)).
Qed.

(** *** The login form *)

Lemma parse_Bearer (s : string) : JSON_parse ("Bearer " +:+ s) = None.
Proof.
  unfold JSON_parse.
  replace (2 * String.length ("Bearer " +:+ s) + 2)%nat
    with (S (2 * String.length ("Bearer " +:+ s) + 1)) by lia.
  reflexivity.
Qed.



(** *** Writing and removing, seen through the listing *)

Lemma evict_absent n (j : jar) : lookup n j = None → evict n j = j.
Proof.
  unfold evict. induction j as [|[n' v] j IH]; simpl; [done |].
  destruct (String.eqb_spec n n') as [-> | Hne]; [done |]. intros Hj.
  destruct (String.eqb_spec n' n); [done |]. simpl. by rewrite IH.
Qed.



(** X26 (removing what is not there): when the jar holds no cookie of
    the name and the clock is not before 1970, [removeCookie] changes
    nothing. *)
Theorem removeCookie_absent (name : string) (g : Global) :
  (∀ d, document g = Some d → lookup (encodeURIComponent name) (cookie d) = None) →
  0 <= now g →
  removeCookie name no_options g = g.
Proof.
  intros Habsent Hnow. destruct (CookieService.isBrowser g) eqn:Hb.
  - apply isBrowser_true in Hb as (w & d & Hw & Hd).
    rewrite (removeCookie_default _ _ _ _ Hw Hd).
    destruct (Z.leb_spec 0 (now g)); [| lia].
    rewrite (evict_absent _ _ (Habsent _ Hd)).
    destruct g as [? ? ?], d. simpl in *. subst. by destruct (negb _).
  - by apply cookie_no_browser.
Qed.

Lemma removeCookie_absent_witness :
  0 <= now page_with_text
  ∧ removeCookie "token" no_options page_with_text = page_with_text.
Proof.
  split; [done |].
  apply (removeCookie_absent "token" page_with_text); [| done].
  intros d [= <-]. reflexivity.
Defined.

(** X27 (the empty name): a cookie written under the empty name, with any
    value and options, cannot be read back: [getCookie("")] returns
    [null] and [hasCookie("")] answers [false]. *)
Theorem empty_name_unreadable (value : json) (options : CookieOptions)
    (g : Global) :
  cookies_well_formed g = true →
  getCookie "" (setCookie "" value options g) = JNull
  ∧ hasCookie "" (setCookie "" value options g) = false.
Proof.
  intros Hj.
  assert (getCookie "" (setCookie "" value options g) = JNull) as Hget;
    [| by unfold hasCookie; rewrite Hget].
  pose proof (cookies_well_formed_setCookie "" value options g Hj) as Hj'.
  destruct (CookieService.isBrowser (setCookie "" value options g)) eqn:Hb.
  - apply isBrowser_true in Hb as (w & d & Hw & Hd).
    unfold cookies_well_formed in Hj'. rewrite Hd in Hj'.
    by rewrite (getCookie_lookup _ _ _ _ Hw Hd Hj').
  - by apply cookie_no_browser.
Qed.

Lemma empty_name_unreadable_witness :
  cookies_well_formed page = true
  ∧ document (setCookie "" (JStr "v") no_options page) = Some (MkDocument [("", "v")])
  ∧ getCookie "" (setCookie "" (JStr "v") no_options page) = JNull.
Proof.
  split; [reflexivity |]. split; [reflexivity |].
  by apply (empty_name_unreadable (JStr "v") no_options page).
Defined.
